(** * Grid layout engine of claude-canvas: a shallow embedding

    The TypeScript sources embedded here are
    - [grid/types.ts]           (value types and span predicates),
    - [grid/cell-calculator.ts] (pixel arithmetic, spreadsheet notation),
    - [grid/grid-manager.ts]    (spec parsing, validation, search, mutation).

    Modelling conventions.
    - A JavaScript [number] that holds a grid index, a count or a pixel
      measure is an integer of [Z]; arithmetic is exact, as it is in
      JavaScript while every value is a safe integer (of magnitude at most
      [MAX_SAFE_INTEGER], 2^53 - 1).  [Math.floor (a / b)] is [Z.div a b]
      for a divisor other than 0 (the statements about cell sizes and
      rectangles assume at least one row and one column) and the remainder
      operator [%] is [Z.rem] (sign of the dividend).
    - The spreadsheet notation is where a number meets the end of that
      range: [cellToExcelNotation] adds 1 to the row it is given, and the
      sum is rounded as binary64 rounds it ([roundDouble]).  The round
      trips between numbers and their notation state the bound they hold
      under.
    - A JavaScript string is a [string]: a sequence of 8-bit code units.
      The model covers ASCII text; [toUpperCase], [trim] and the regular
      expression classes are the ASCII ones.
    - [null] / [undefined] results are [None].
    - [new Date().toISOString()] reads a clock; the mutators take that
      reading as an extra argument [now].
    - [throw new Error msg] is the [Throw msg] outcome of type [outcome]. *)

From Stdlib Require Import ZArith List Bool Lia String Ascii.
From Stdlib Require Import Decimal DecimalString DecimalPos DecimalN DecimalZ.
From Stdlib Require QArith_base.
Import ListNotations.

Local Open Scope string_scope.
Local Open Scope list_scope.
Local Open Scope Z_scope.

(* ================================================================== *)
(** * Part I: the model *)
(* ================================================================== *)

(** ** Data model ([grid/types.ts]) *)

Record CellAddress := mkCellAddress {
  row : Z;
  column : Z
}.

Record CellSpan := mkCellSpan {
  startRow : Z;
  startColumn : Z;
  rowSpan : Z;
  columnSpan : Z
}.

Record PixelRect := mkPixelRect {
  x : Z;
  y : Z;
  width : Z;
  height : Z
}.

(** [MonitorInfo.width] and [MonitorInfo.height] are the full screen size;
    they are renamed here because [PixelRect] owns the field names. *)
Record MonitorInfo := mkMonitorInfo {
  index : Z;
  name : string;
  screenWidth : Z;
  screenHeight : Z;
  workAreaX : Z;
  workAreaY : Z;
  workAreaWidth : Z;
  workAreaHeight : Z;
  scaleFactor : QArith_base.Q;
  isPrimary : bool
}.

Record GridConfig := mkGridConfig {
  rows : Z;
  columns : Z;
  monitorIndex : Z;
  cellGapHorizontal : Z;
  cellGapVertical : Z;
  marginTop : Z;
  marginBottom : Z;
  marginLeft : Z;
  marginRight : Z
}.

Definition DEFAULT_GRID_CONFIG : GridConfig :=
  {| rows := 3; columns := 3; monitorIndex := 0;
     cellGapHorizontal := 4; cellGapVertical := 4;
     marginTop := 0; marginBottom := 0; marginLeft := 0; marginRight := 0 |}.

Record CellAssignment := mkCellAssignment {
  windowId : string;
  cellSpan : CellSpan;
  zIndex : option Z
}.

Record GridState := mkGridState {
  desktopIndex : Z;
  config : GridConfig;
  assignments : list CellAssignment;
  lastUpdated : string
}.

(** [CellSpecParseResult]: [cellSpan?] and [error?] are optional fields. *)
Record CellSpecParseResult := mkParseResult {
  success : bool;
  parsedSpan : option CellSpan;
  parseError : option string
}.

(** The anonymous result type [{ valid: boolean; error?: string }]. *)
Record ValidationResult := mkValidation {
  valid : bool;
  error : option string
}.

(** The anonymous result types of the calculator.  The size returned by
    [calculateSingleCellSize] is [{ width, height }] in the source; its
    fields carry the names of [CellDimensions] here. *)
Record CellSize := mkCellSize {
  cellWidth : Z;
  cellHeight : Z
}.


(** A call either returns a value or throws an [Error] with a message. *)
Inductive outcome (A : Type) : Type :=
| Return (a : A)
| Throw (msg : string).
Arguments Return {A} a.
Arguments Throw {A} msg.

(** ** Loops *)

(** The values taken by [i] in [for (let i = lo; i < lo + n; i++)]. *)
Definition countFrom (lo n : Z) : list Z :=
  map (fun k => lo + Z.of_nat k) (seq 0 (Z.to_nat n)).

(** The values taken by [i] in [for (let i = 0; i <= hi; i++)]. *)
Definition upTo (hi : Z) : list Z := countFrom 0 (hi + 1).

(** A [for] loop over [l] whose body may [return] a value. *)
Fixpoint firstReturn {A B : Type} (body : A -> option B) (l : list A) : option B :=
  match l with
  | [] => None
  | a :: rest =>
      match body a with
      | Some b => Some b
      | None => firstReturn body rest
      end
  end.

(** ** Span predicates ([grid/types.ts]) *)

Definition singleCell (r c : Z) : CellSpan :=
  {| startRow := r; startColumn := c; rowSpan := 1; columnSpan := 1 |}.

Definition cellSpansOverlap (a b : CellSpan) : bool :=
  let aEndRow := startRow a + rowSpan a - 1 in
  let aEndCol := startColumn a + columnSpan a - 1 in
  let bEndRow := startRow b + rowSpan b - 1 in
  let bEndCol := startColumn b + columnSpan b - 1 in
  negb ((aEndRow <? startRow b) || (startRow a >? bEndRow)
        || (aEndCol <? startColumn b) || (startColumn a >? bEndCol)).

Definition isWithinGrid (span : CellSpan) (cfg : GridConfig) : bool :=
  (startRow span >=? 0) && (startColumn span >=? 0)
  && (startRow span + rowSpan span <=? rows cfg)
  && (startColumn span + columnSpan span <=? columns cfg).

Definition getCellsInSpan (span : CellSpan) : list CellAddress :=
  flat_map
    (fun r => map (fun c => {| row := r; column := c |})
                  (countFrom (startColumn span) (columnSpan span)))
    (countFrom (startRow span) (rowSpan span)).

(** ** Pixel arithmetic ([grid/cell-calculator.ts]) *)

(** The size of a cell is the floor of a quotient by the number of columns
    or of rows.  With no column or no row the code divides by 0 and its
    sizes are [Infinity] or [NaN]; the quotients below are the code's in a
    grid of at least one row and one column. *)

Definition calculateCellRect (span : CellSpan) (cfg : GridConfig)
    (monitor : MonitorInfo) : PixelRect :=
  let availableWidth := workAreaWidth monitor - marginLeft cfg - marginRight cfg in
  let availableHeight := workAreaHeight monitor - marginTop cfg - marginBottom cfg in
  let totalHGap := (columns cfg - 1) * cellGapHorizontal cfg in
  let totalVGap := (rows cfg - 1) * cellGapVertical cfg in
  let cellW := (availableWidth - totalHGap) / columns cfg in
  let cellH := (availableHeight - totalVGap) / rows cfg in
  {| x := workAreaX monitor + marginLeft cfg
          + startColumn span * (cellW + cellGapHorizontal cfg);
     y := workAreaY monitor + marginTop cfg
          + startRow span * (cellH + cellGapVertical cfg);
     width := columnSpan span * cellW
              + (columnSpan span - 1) * cellGapHorizontal cfg;
     height := rowSpan span * cellH
               + (rowSpan span - 1) * cellGapVertical cfg |}.

Definition calculateSingleCellSize (cfg : GridConfig) (monitor : MonitorInfo)
    : CellSize :=
  let availableWidth := workAreaWidth monitor - marginLeft cfg - marginRight cfg in
  let availableHeight := workAreaHeight monitor - marginTop cfg - marginBottom cfg in
  let totalHGap := (columns cfg - 1) * cellGapHorizontal cfg in
  let totalVGap := (rows cfg - 1) * cellGapVertical cfg in
  {| cellWidth := (availableWidth - totalHGap) / columns cfg;
     cellHeight := (availableHeight - totalVGap) / rows cfg |}.



(** The monitor and configuration used by the calculator's test-suite:
    a 1920x1080 screen whose work area is 1920x1040. *)
Definition mockMonitor : MonitorInfo :=
  {| index := 0; name := "\\.\DISPLAY1";
     screenWidth := 1920; screenHeight := 1080;
     workAreaX := 0; workAreaY := 0;
     workAreaWidth := 1920; workAreaHeight := 1040;
     scaleFactor := QArith_base.Qmake 1 1; isPrimary := true |}.

(** ** Characters and strings of the JavaScript runtime *)

(** [s.charCodeAt i] of one code unit, and [String.fromCharCode] (on the
    code units the model has: the argument is reduced modulo 256). *)
Definition charCode (c : ascii) : Z := Z.of_N (N_of_ascii c).
Definition fromCharCode (n : Z) : ascii := ascii_of_N (Z.to_N (n mod 256)).

Definition isDigit (c : ascii) : bool := (48 <=? charCode c) && (charCode c <=? 57).
Definition isUpper (c : ascii) : bool := (65 <=? charCode c) && (charCode c <=? 90).
Definition isLower (c : ascii) : bool := (97 <=? charCode c) && (charCode c <=? 122).

(** A code unit of ASCII text, where [toUpperCase], [trim] and the classes
    of the patterns are those of the code. *)
Definition isAscii (c : ascii) : bool := charCode c <? 128.

(** White space of [trim] and of the class [\s]: TAB, LF, VT, FF, CR, SP. *)
Definition isSpace (c : ascii) : bool :=
  ((9 <=? charCode c) && (charCode c <=? 13)) || (charCode c =? 32).

Definition isChar (d c : ascii) : bool := Ascii.eqb c d.

Definition upperChar (c : ascii) : ascii :=
  if isLower c then fromCharCode (charCode c - 32) else c.

Fixpoint toUpperCase (s : string) : string :=
  match s with
  | EmptyString => EmptyString
  | String c rest => String (upperChar c) (toUpperCase rest)
  end.

Fixpoint trimStart (s : string) : string :=
  match s with
  | EmptyString => EmptyString
  | String c rest => if isSpace c then trimStart rest else s
  end.

(** [trimEnd s] drops the white space that ends [s]: a space is kept only
    if something is left after it. *)
Fixpoint trimEnd (s : string) : string :=
  match s with
  | EmptyString => EmptyString
  | String c rest =>
      match trimEnd rest with
      | EmptyString => if isSpace c then EmptyString else String c EmptyString
      | kept => String c kept
      end
  end.

Definition trim (s : string) : string := trimEnd (trimStart s).

(** [Number.MAX_SAFE_INTEGER]: up to it, every integer is a value of the
    [number] type and so is its successor. *)
Definition MAX_SAFE_INTEGER : Z := 2 ^ 53 - 1.

(** A [number] is an IEEE 754 binary64 value; an integer is one when 53
    bits write it, up to a power of two.  [roundDouble n] is what an
    addition or a subtraction returns when its exact result is the integer
    [n]: [n] rounded to 53 significant bits, a tie going to the even
    significand.  (A result of magnitude 2^1024 or more overflows to
    [Infinity]; no statement reaches that far.) *)
Definition roundDouble (n : Z) : Z :=
  let m := Z.abs n in
  let shift := Z.log2 m - 52 in
  if shift <=? 0 then n
  else
    let q := Z.shiftr m shift in
    let r := m - Z.shiftl q shift in
    let half := Z.shiftl 1 (shift - 1) in
    let q' := if (half <? r) || ((r =? half) && Z.odd q) then q + 1 else q in
    Z.sgn n * Z.shiftl q' shift.

(** [n.toString()] of an integer: decimal digits, ["-"] before a negative.
    This is what the code prints for every safe integer and for 2^53;
    larger numbers are printed with the fewest digits that read back to
    the same number, and with an exponent from 10^21 on. *)
Definition toString (n : Z) : string := NilZero.string_of_int (Z.to_int n).

(** [parseInt(s, 10)] on a string that starts with a decimal digit: the
    number written by the leading run of digits.  Every call site passes a
    [(\d+)] capture, so neither a sign, nor leading white space, nor the
    [NaN] result of a digit-less string arises.  The number is exact, as
    it is in the code when it is at most 2^53. *)
Fixpoint parseDigits (acc : Z) (s : string) : Z :=
  match s with
  | EmptyString => acc
  | String c rest =>
      if isDigit c then parseDigits (acc * 10 + (charCode c - 48)) rest else acc
  end.

Definition parseInt10 (s : string) : Z := parseDigits 0 s.

(** Truthiness of a possibly undefined string: [undefined] and the empty
    string are falsy. *)
Definition truthy (s : option string) : bool :=
  match s with
  | None => false
  | Some t => negb (String.eqb t EmptyString)
  end.

(** ** Regular expressions

    The three patterns of the source are built from single-character
    classes, greedy [*] and [+] over a class, capturing groups and one
    optional non-capturing group, anchored at both ends.  [run] is a
    backtracking matcher for that fragment, written in continuation
    style: [k rest caps] tries the remainder of the pattern on [rest]. *)

Inductive regex : Type :=
| Cls (p : ascii -> bool)       (* one character of the class *)
| Star (p : ascii -> bool)      (* p* , greedy *)
| Plus (p : ascii -> bool)      (* p+ , greedy *)
| Cat (r1 r2 : regex)           (* r1 r2 *)
| Group (r : regex)             (* ( r ) *)
| Opt (r : regex).              (* (?: r )? , greedy *)

(** Captures in the order of their groups; [None] is [undefined]. *)
Definition captures : Type := list (option string).

Fixpoint groupCount (r : regex) : nat :=
  match r with
  | Cls _ | Star _ | Plus _ => 0
  | Cat r1 r2 => groupCount r1 + groupCount r2
  | Group r1 => S (groupCount r1)
  | Opt r1 => groupCount r1
  end.

(** Greedy iteration of a class: take one more character if possible and,
    should the rest of the pattern fail, give it back. *)
Fixpoint star {A : Type} (p : ascii -> bool) (s : string)
    (k : string -> option A) : option A :=
  match s with
  | String c rest =>
      if p c then
        match star p rest k with
        | Some a => Some a
        | None => k s
        end
      else k s
  | EmptyString => k s
  end.

(** The text consumed between position [s] and the later position [rest]. *)
Definition consumed (s rest : string) : string :=
  substring 0 (String.length s - String.length rest) s.

Fixpoint run (r : regex) (s : string) (caps : captures)
    (k : string -> captures -> option captures) : option captures :=
  match r with
  | Cls p =>
      match s with
      | String c rest => if p c then k rest caps else None
      | EmptyString => None
      end
  | Star p => star p s (fun rest => k rest caps)
  | Plus p =>
      match s with
      | String c rest => if p c then star p rest (fun rest' => k rest' caps) else None
      | EmptyString => None
      end
  | Cat r1 r2 => run r1 s caps (fun rest caps' => run r2 rest caps' k)
  | Group r1 =>
      run r1 s caps (fun rest caps' => k rest (caps' ++ [Some (consumed s rest)]))
  | Opt r1 =>
      match run r1 s caps k with
      | Some res => Some res
      | None => k s (caps ++ repeat None (groupCount r1))
      end
  end.

(** [s.match(/^r$/)]: the captured groups, or [None] for [null]. *)
Definition matchAnchored (r : regex) (s : string) : option captures :=
  run r s [] (fun rest caps =>
    match rest with EmptyString => Some caps | _ => None end).

Fixpoint catAll (rs : list regex) (last : regex) : regex :=
  match rs with
  | [] => last
  | r :: rest => Cat r (catAll rest last)
  end.

(** [/^([A-Z]+)(\d+)$/] *)
Definition cellPattern : regex :=
  Cat (Group (Plus isUpper)) (Group (Plus isDigit)).

(** [/^(\d+)\s*,\s*(\d+)(?:\s*:\s*(\d+)\s*[xX]\s*(\d+))?$/] *)
Definition coordPattern : regex :=
  catAll
    [ Group (Plus isDigit); Star isSpace; Cls (isChar ","); Star isSpace;
      Group (Plus isDigit) ]
    (Opt (catAll
            [ Star isSpace; Cls (isChar ":"); Star isSpace;
              Group (Plus isDigit); Star isSpace;
              Cls (fun c => isChar "x" c || isChar "X" c); Star isSpace ]
            (Group (Plus isDigit)))).

(** [/^([A-Z]+)(\d+)(?::([A-Z]+)(\d+))?$/] *)
Definition rangePattern : regex :=
  catAll
    [ Group (Plus isUpper); Group (Plus isDigit) ]
    (Opt (catAll
            [ Cls (isChar ":"); Group (Plus isUpper) ]
            (Group (Plus isDigit)))).

(** ** Spreadsheet notation ([grid/cell-calculator.ts]) *)

(** The [do ... while (c >= 0)] loop of [cellToExcelNotation]: one letter
    is prepended per iteration.  [fuel] bounds the number of times the
    loop is re-entered. *)
Fixpoint columnLetters (fuel : nat) (c : Z) (colStr : string) : string :=
  let colStr' := String (fromCharCode (65 + Z.rem c 26)) colStr in
  let c' := c / 26 - 1 in
  match fuel with
  | O => colStr'
  | S fuel' => if c' >=? 0 then columnLetters fuel' c' colStr' else colStr'
  end.

(** [c / 26 - 1 < c] for [c >= 0], so [Z.to_nat column] re-entries are
    enough (see [columnLetters_fuel]).  [row + 1] is a binary64 sum: at
    2^53 it gives 2^53 again. *)
Definition cellToExcelNotation (r c : Z) : string :=
  let colStr := columnLetters (Z.to_nat c) c EmptyString in
  let rowStr := toString (roundDouble (r + 1)) in
  colStr ++ rowStr.

(** The [for] loop that decodes the column letters. *)
Fixpoint columnValue (acc : Z) (colStr : string) : Z :=
  match colStr with
  | EmptyString => acc
  | String ch rest => columnValue (acc * 26 + (charCode ch - 64)) rest
  end.

(** A match of [cellPattern] always has two captured strings (lemma
    [cellPattern_inv]); the last branch stands for the [null] match. *)
Definition excelNotationToCell (notation : string) : option CellAddress :=
  match matchAnchored cellPattern (toUpperCase notation) with
  | Some [Some colStr; Some rowStr] =>
      let col := columnValue 0 colStr - 1 in
      let r := parseInt10 rowStr - 1 in
      if (r <? 0) || (col <? 0) then None
      else Some {| row := r; column := col |}
  | _ => None
  end.

Definition formatCellSpan (span : CellSpan) : string :=
  let startCell := cellToExcelNotation (startRow span) (startColumn span) in
  if (rowSpan span =? 1) && (columnSpan span =? 1) then startCell
  else
    let endRow := startRow span + rowSpan span - 1 in
    let endCol := startColumn span + columnSpan span - 1 in
    let endCell := cellToExcelNotation endRow endCol in
    startCell ++ ":" ++ endCell.

Definition formatCellSpanCoords (span : CellSpan) : string :=
  if (rowSpan span =? 1) && (columnSpan span =? 1) then
    toString (startRow span) ++ "," ++ toString (startColumn span)
  else
    toString (startRow span) ++ "," ++ toString (startColumn span) ++ ":"
    ++ toString (rowSpan span) ++ "x" ++ toString (columnSpan span).

(** ** Grid manager ([grid/grid-manager.ts]) *)

(** [Partial<GridConfig>]: every field may be absent. *)
Record PartialGridConfig := mkPartialGridConfig {
  p_rows : option Z;
  p_columns : option Z;
  p_monitorIndex : option Z;
  p_cellGapHorizontal : option Z;
  p_cellGapVertical : option Z;
  p_marginTop : option Z;
  p_marginBottom : option Z;
  p_marginLeft : option Z;
  p_marginRight : option Z
}.

(** [a ?? b] *)
Definition orElse {A : Type} (a : option A) (b : A) : A :=
  match a with
  | Some v => v
  | None => b
  end.

Definition initializeGridState (desktop : Z) (partial : PartialGridConfig)
    (now : string) : GridState :=
  let fullConfig :=
    {| rows := orElse (p_rows partial) 3;
       columns := orElse (p_columns partial) 3;
       monitorIndex := orElse (p_monitorIndex partial) 0;
       cellGapHorizontal := orElse (p_cellGapHorizontal partial) 4;
       cellGapVertical := orElse (p_cellGapVertical partial) 4;
       marginTop := orElse (p_marginTop partial) 0;
       marginBottom := orElse (p_marginBottom partial) 0;
       marginLeft := orElse (p_marginLeft partial) 0;
       marginRight := orElse (p_marginRight partial) 0 |} in
  {| desktopIndex := desktop;
     config := fullConfig;
     assignments := [];
     lastUpdated := now |}.

Definition parseOk (span : CellSpan) : CellSpecParseResult :=
  {| success := true; parsedSpan := Some span; parseError := None |}.

Definition parseFail (msg : string) : CellSpecParseResult :=
  {| success := false; parsedSpan := None; parseError := Some msg |}.

(** [s ? parseInt(s, 10) : 1] *)
Definition parseIntOr1 (s : option string) : Z :=
  match s with
  | Some t => if truthy s then parseInt10 t else 1
  | None => 1
  end.

(** The spreadsheet branch of [parseCellSpec], entered with the four
    destructured groups of [excelMatch]. *)
Definition parseExcelMatch (startColStr startRowStr : string)
    (endColStr endRowStr : option string) : CellSpecParseResult :=
  match excelNotationToCell (startColStr ++ startRowStr) with
  | None => parseFail ("Invalid cell notation: " ++ startColStr ++ startRowStr)
  | Some startCell =>
      match endColStr, endRowStr with
      | Some endCol, Some endRow =>
          if truthy endColStr && truthy endRowStr then
            match excelNotationToCell (endCol ++ endRow) with
            | None => parseFail ("Invalid cell notation: " ++ endCol ++ endRow)
            | Some endCell =>
                let minRow := Z.min (row startCell) (row endCell) in
                let minCol := Z.min (column startCell) (column endCell) in
                let maxRow := Z.max (row startCell) (row endCell) in
                let maxCol := Z.max (column startCell) (column endCell) in
                parseOk {| startRow := minRow;
                           startColumn := minCol;
                           rowSpan := maxRow - minRow + 1;
                           columnSpan := maxCol - minCol + 1 |}
            end
          else parseOk (singleCell (row startCell) (column startCell))
      | _, _ => parseOk (singleCell (row startCell) (column startCell))
      end
  end.

(** Groups 1 and 2 of both patterns take part in every match, so the
    destructuring always finds two strings there (lemmas
    [coordPattern_shape] and [rangePattern_shape]); a match of any other
    shape is treated as no match. *)
Definition parseCellSpec (spec : string) : CellSpecParseResult :=
  let trimmed := toUpperCase (trim spec) in
  match matchAnchored coordPattern trimmed with
  | Some [Some rowStr; Some colStr; rowSpanStr; colSpanStr] =>
      let r := parseInt10 rowStr in
      let c := parseInt10 colStr in
      let rSpan := parseIntOr1 rowSpanStr in
      let cSpan := parseIntOr1 colSpanStr in
      if (rSpan <? 1) || (cSpan <? 1) then
        parseFail "Span dimensions must be at least 1"
      else
        parseOk {| startRow := r; startColumn := c;
                   rowSpan := rSpan; columnSpan := cSpan |}
  | _ =>
      match matchAnchored rangePattern trimmed with
      | Some [Some startColStr; Some startRowStr; endColStr; endRowStr] =>
          parseExcelMatch startColStr startRowStr endColStr endRowStr
      | _ => parseFail ("Invalid cell specification: " ++ spec)
      end
  end.

Definition formatCellSpec (span : CellSpan) : string := formatCellSpan span.

Definition formatCellSpecCoords (span : CellSpan) : string :=
  formatCellSpanCoords span.

(** The two failure messages of [validateCellSpan]. *)
Definition boundsError (span : CellSpan) (cfg : GridConfig) : string :=
  "Cell span " ++ formatCellSpec span ++ " is outside grid bounds ("
  ++ toString (rows cfg) ++ "x" ++ toString (columns cfg) ++ ")".

Definition overlapError (a : CellAssignment) : string :=
  "Cell span overlaps with window " ++ windowId a ++ " at "
  ++ formatCellSpec (cellSpan a).

(** [excludeWindowId && assignment.windowId === excludeWindowId] *)
Definition isExcluded (excludeWindowId : option string) (a : CellAssignment)
    : bool :=
  match excludeWindowId with
  | Some e => truthy excludeWindowId && String.eqb (windowId a) e
  | None => false
  end.

Definition validateCellSpan (span : CellSpan) (gridState : GridState)
    (excludeWindowId : option string) : ValidationResult :=
  if negb (isWithinGrid span (config gridState)) then
    {| valid := false; error := Some (boundsError span (config gridState)) |}
  else
    match
      firstReturn
        (fun a =>
           if isExcluded excludeWindowId a then None
           else if cellSpansOverlap span (cellSpan a) then
             Some {| valid := false; error := Some (overlapError a) |}
           else None)
        (assignments gridState)
    with
    | Some failure => failure
    | None => {| valid := true; error := None |}
    end.

(** The key [`${row},${col}`] under which a cell is stored in the set of
    occupied cells. *)
Definition cellKey (r c : Z) : string := toString r ++ "," ++ toString c.

Definition getAvailableCells (gridState : GridState) : list CellAddress :=
  let occupied :=
    flat_map
      (fun a => map (fun cell => cellKey (row cell) (column cell))
                    (getCellsInSpan (cellSpan a)))
      (assignments gridState) in
  flat_map
    (fun r =>
       flat_map
         (fun c =>
            if existsb (String.eqb (cellKey r c)) occupied then []
            else [{| row := r; column := c |}])
         (countFrom 0 (columns (config gridState))))
    (countFrom 0 (rows (config gridState))).

Definition findAvailableSpan (rSpan cSpan : Z) (gridState : GridState)
    : option CellSpan :=
  firstReturn
    (fun r =>
       firstReturn
         (fun c =>
            let testSpan :=
              {| startRow := r; startColumn := c;
                 rowSpan := rSpan; columnSpan := cSpan |} in
            if valid (validateCellSpan testSpan gridState None)
            then Some testSpan else None)
         (upTo (columns (config gridState) - cSpan)))
    (upTo (rows (config gridState) - rSpan)).

Definition assignWindowToGrid (wid : string) (span : CellSpan)
    (gridState : GridState) (now : string) : GridState :=
  let newAssignments :=
    filter (fun a => negb (String.eqb (windowId a) wid)) (assignments gridState) in
  {| desktopIndex := desktopIndex gridState;
     config := config gridState;
     assignments :=
       newAssignments ++ [{| windowId := wid; cellSpan := span; zIndex := None |}];
     lastUpdated := now |}.

Definition removeWindowFromGrid (wid : string) (gridState : GridState)
    (now : string) : GridState :=
  {| desktopIndex := desktopIndex gridState;
     config := config gridState;
     assignments :=
       filter (fun a => negb (String.eqb (windowId a) wid)) (assignments gridState);
     lastUpdated := now |}.

Definition getWindowCellSpan (wid : string) (gridState : GridState)
    : option CellSpan :=
  match find (fun a => String.eqb (windowId a) wid) (assignments gridState) with
  | Some assignment => Some (cellSpan assignment)
  | None => None
  end.

Definition swapWindowPositions (windowId1 windowId2 : string)
    (gridState : GridState) (now : string) : outcome GridState :=
  match getWindowCellSpan windowId1 gridState,
        getWindowCellSpan windowId2 gridState with
  | Some span1, Some span2 =>
      let newAssignments :=
        map (fun a =>
               if String.eqb (windowId a) windowId1 then
                 {| windowId := windowId a; cellSpan := span2; zIndex := zIndex a |}
               else if String.eqb (windowId a) windowId2 then
                 {| windowId := windowId a; cellSpan := span1; zIndex := zIndex a |}
               else a)
            (assignments gridState) in
      Return {| desktopIndex := desktopIndex gridState;
                config := config gridState;
                assignments := newAssignments;
                lastUpdated := now |}
  | _, _ => Throw "Both windows must have grid assignments to swap"
  end.

(** ** Configurations and states used as examples *)

(** The layout of the test-suite: 3x3 cells, 4px gaps, no margins (on any
    monitor index). *)
Definition defaultLayout (cfg : GridConfig) : Prop :=
  rows cfg = 3 /\ columns cfg = 3
  /\ cellGapHorizontal cfg = 4 /\ cellGapVertical cfg = 4
  /\ marginTop cfg = 0 /\ marginBottom cfg = 0
  /\ marginLeft cfg = 0 /\ marginRight cfg = 0.

Definition workArea1920x1040 (monitor : MonitorInfo) : Prop :=
  workAreaWidth monitor = 1920 /\ workAreaHeight monitor = 1040.

Definition workAreaAtOrigin (monitor : MonitorInfo) : Prop :=
  workAreaX monitor = 0 /\ workAreaY monitor = 0.

(** The argument [{}] of [initializeGridState]. *)
Definition noOverrides : PartialGridConfig :=
  {| p_rows := None; p_columns := None; p_monitorIndex := None;
     p_cellGapHorizontal := None; p_cellGapVertical := None;
     p_marginTop := None; p_marginBottom := None;
     p_marginLeft := None; p_marginRight := None |}.

(** The argument [{ rows: r, columns: c }]. *)
Definition sized (r c : Z) : PartialGridConfig :=
  {| p_rows := Some r; p_columns := Some c; p_monitorIndex := None;
     p_cellGapHorizontal := None; p_cellGapVertical := None;
     p_marginTop := None; p_marginBottom := None;
     p_marginLeft := None; p_marginRight := None |}.

Definition t0 : string := "2026-01-01T00:00:00.000Z".
Definition t1 : string := "2026-01-01T00:00:01.000Z".
Definition t2 : string := "2026-01-01T00:00:02.000Z".
Definition t3 : string := "2026-01-01T00:00:03.000Z".

Definition emptyGrid3x3 : GridState := initializeGridState 0 (sized 3 3) t0.

Definition cellA1 : CellSpan := singleCell 0 0.
Definition cellB1 : CellSpan := singleCell 0 1.
Definition cellC3 : CellSpan := singleCell 2 2.

(** [win-1] on A1, then [win-2] on B1. *)
Definition twoWindows : GridState :=
  assignWindowToGrid "win-2" cellB1
    (assignWindowToGrid "win-1" cellA1 emptyGrid3x3 t1) t2.

(** [win-1] on A1, then [win-2] on C3 (the swap test). *)
Definition swapFixture : GridState :=
  assignWindowToGrid "win-2" cellC3
    (assignWindowToGrid "win-1" cellA1 emptyGrid3x3 t1) t2.

(** A 1x1 grid whose only cell is taken. *)
Definition packed1x1 : GridState :=
  assignWindowToGrid "win-1" cellA1 (initializeGridState 0 (sized 1 1) t0) t1.

(** A 3x3 grid covered by one window. *)
Definition packed3x3 : GridState :=
  assignWindowToGrid "win-1"
    {| startRow := 0; startColumn := 0; rowSpan := 3; columnSpan := 3 |}
    emptyGrid3x3 t1.

(** All the assignments a state holds for one window id, in order. *)
Definition assignmentsOf (wid : string) (gridState : GridState)
    : list CellAssignment :=
  filter (fun a => String.eqb (windowId a) wid) (assignments gridState).

(** [covers span r c]: the cell (r, c) is one of the cells of [span]. *)
Definition covers (span : CellSpan) (r c : Z) : Prop :=
  startRow span <= r < startRow span + rowSpan span
  /\ startColumn span <= c < startColumn span + columnSpan span.

(** A grid is fully packed when [getAvailableCells] finds no free cell. *)
Definition fullyPacked (gridState : GridState) : Prop :=
  getAvailableCells gridState = [].

(** The span [{ startRow: r, startColumn: c, rowSpan, columnSpan }] that
    [findAvailableSpan] tests at the origin (r, c). *)
Definition spanAt (r c rSpan cSpan : Z) : CellSpan :=
  {| startRow := r; startColumn := c; rowSpan := rSpan; columnSpan := cSpan |}.

(** Whether the span tested at the origin (r, c) passes [validateCellSpan]. *)
Definition fitsAt (rSpan cSpan : Z) (gridState : GridState) (r c : Z) : bool :=
  valid (validateCellSpan (spanAt r c rSpan cSpan) gridState None).

(** The state [{ ...gridState, assignments: others }]. *)
Definition withAssignments (gridState : GridState)
    (others : list CellAssignment) : GridState :=
  {| desktopIndex := desktopIndex gridState;
     config := config gridState;
     assignments := others;
     lastUpdated := lastUpdated gridState |}.

(** Every character of [s] is in the class [p]. *)
Fixpoint allChars (p : ascii -> bool) (s : string) : bool :=
  match s with
  | EmptyString => true
  | String c rest => p c && allChars p rest
  end.

(** A parse result is well tagged when it is a success that carries a span
    and no error, or a failure that carries a non-empty message and no
    span. *)
Definition wellTagged (res : CellSpecParseResult) : Prop :=
  (exists span, res = parseOk span)
  \/ (exists msg, res = parseFail msg /\ msg <> EmptyString).

(** Neither a space nor any other white space. *)
Definition notSpace (c : ascii) : bool := negb (isSpace c).

(** A non-empty text made of characters of the class [p], and a captured
    group that is such a text when it is defined. *)
Definition textOf (p : ascii -> bool) (s : string) : Prop :=
  s <> EmptyString /\ allChars p s = true.

Definition optTextOf (p : ascii -> bool) (group : option string) : Prop :=
  match group with
  | Some s => textOf p s
  | None => True
  end.

(** Greedy iteration of the class [p] cannot go past the start of [rest]. *)
Definition stopsAt (p : ascii -> bool) (rest : string) : bool :=
  match rest with
  | EmptyString => true
  | String c _ => negb (p c)
  end.

(** What a pattern of the fragment matches, and the groups it captures:
    [matches r s caps] says that [r] matches exactly the text [s] and
    that its groups capture [caps]. *)
Inductive matches : regex -> string -> captures -> Prop :=
| M_Cls p c : p c = true -> matches (Cls p) (String c EmptyString) []
| M_Star p s : allChars p s = true -> matches (Star p) s []
| M_Plus p s : s <> EmptyString -> allChars p s = true -> matches (Plus p) s []
| M_Cat r1 r2 s1 s2 caps1 caps2 :
    matches r1 s1 caps1 -> matches r2 s2 caps2 ->
    matches (Cat r1 r2) (s1 ++ s2) (caps1 ++ caps2)
| M_Group r s caps : matches r s caps -> matches (Group r) s (caps ++ [Some s])
| M_Opt_taken r s caps : matches r s caps -> matches (Opt r) s caps
| M_Opt_skipped r : matches (Opt r) EmptyString (repeat None (groupCount r)).

(** Any character but the comma that separates the two parts of a key. *)
Definition notComma (c : ascii) : bool := negb (isChar "," c).

(** The first row of two cells, A1:B1. *)
Definition rangeA1B1 : CellSpan :=
  {| startRow := 0; startColumn := 0; rowSpan := 1; columnSpan := 2 |}.

Definition win1OnA1 : CellAssignment :=
  {| windowId := "win-1"; cellSpan := cellA1; zIndex := None |}.

Definition win2OnB1 : CellAssignment :=
  {| windowId := "win-2"; cellSpan := cellB1; zIndex := None |}.

(** A window whose id is the empty string, on A1. *)
Definition unnamedWindow : GridState :=
  assignWindowToGrid EmptyString cellA1 emptyGrid3x3 t1.

(** ** Further definitions of the primitives *)


(** A span of at least one row and one column. *)
Definition positiveSpan (span : CellSpan) : Prop :=
  1 <= rowSpan span /\ 1 <= columnSpan span.

(** A cell of the grid. *)
Definition inGrid (cfg : GridConfig) (r c : Z) : Prop :=
  0 <= r < rows cfg /\ 0 <= c < columns cfg.

(** ** Further definitions of the calculator ([grid/cell-calculator.ts]) *)

(** One element [{ row, column, rect }] of [CellDimensions.cells], and
    [CellDimensions] itself; the fields [row], [column], [cellWidth] and
    [cellHeight] carry a prefix because other records own those names. *)
Record CellEntry := mkCellEntry {
  entryRow : Z;
  entryColumn : Z;
  rect : PixelRect
}.

Record CellDimensions := mkCellDimensions {
  dimCellWidth : Z;
  dimCellHeight : Z;
  cells : list CellEntry
}.


Definition calculateAllCells (cfg : GridConfig) (monitor : MonitorInfo)
    : CellDimensions :=
  let size := calculateSingleCellSize cfg monitor in
  {| dimCellWidth := cellWidth size;
     dimCellHeight := cellHeight size;
     cells :=
       flat_map
         (fun r =>
            map (fun c =>
                   {| entryRow := r;
                      entryColumn := c;
                      rect :=
                        calculateCellRect
                          {| startRow := r; startColumn := c;
                             rowSpan := 1; columnSpan := 1 |}
                          cfg monitor |})
                (countFrom 0 (columns cfg)))
         (countFrom 0 (rows cfg)) |}.






(** The last row and column of a span, as [formatCellSpan] computes them. *)
Definition endRowOf (span : CellSpan) : Z := startRow span + rowSpan span - 1.
Definition endColumnOf (span : CellSpan) : Z :=
  startColumn span + columnSpan span - 1.

(** A span of cells whose rows and columns are safe integers: it starts at
    a row and a column from 0 on, has at least one row and one column, and
    ends no later than row and column 2^53 - 1. *)
Definition safeSpan (span : CellSpan) : Prop :=
  0 <= startRow span /\ 0 <= startColumn span /\ positiveSpan span
  /\ endRowOf span <= MAX_SAFE_INTEGER /\ endColumnOf span <= MAX_SAFE_INTEGER.

(** The success flag and the span of a parse result, without its message. *)
Definition parseOutcome (res : CellSpecParseResult) : bool * option CellSpan :=
  (success res, parsedSpan res).

(** ** Further definitions of the grid manager and of its callers *)

(** The result [{ success, gridState?, error? }] of [assignToGrid]
    ([api/canvas-api.ts]). *)
Record AssignResult := mkAssignResult {
  assignSuccess : bool;
  assignedState : option GridState;
  assignError : option string
}.

(** [a || b] on a possibly undefined string: [b] when [a] is falsy. *)
Definition orDefault (a : option string) (b : string) : string :=
  match a with
  | Some s => if truthy a then s else b
  | None => b
  end.

(** [assignToGrid(windowId, position, gridState)]: [position] is a cell
    specification ([inl], a string) or a span ([inr]). *)
Definition assignToGrid (wid : string) (position : string + CellSpan)
    (gridState : GridState) (now : string) : AssignResult :=
  let parsedPosition : AssignResult + CellSpan :=
    match position with
    | inl spec =>
        let parsed := parseCellSpec spec in
        match parsedSpan parsed with
        | Some span =>
            if negb (success parsed) then
              inl {| assignSuccess := false; assignedState := None;
                     assignError :=
                       Some (orDefault (parseError parsed)
                               "Invalid cell specification") |}
            else inr span
        | None =>
            inl {| assignSuccess := false; assignedState := None;
                   assignError :=
                     Some (orDefault (parseError parsed)
                             "Invalid cell specification") |}
        end
    | inr span => inr span
    end in
  match parsedPosition with
  | inl failure => failure
  | inr span =>
      let validation := validateCellSpan span gridState (Some wid) in
      if negb (valid validation) then
        {| assignSuccess := false; assignedState := None;
           assignError := error validation |}
      else
        {| assignSuccess := true;
           assignedState := Some (assignWindowToGrid wid span gridState now);
           assignError := None |}
  end.

(** Every assignment lies within the grid, and the spans of two different
    windows never overlap. *)
Definition allWithinGrid (gridState : GridState) : Prop :=
  forall a, In a (assignments gridState) ->
            isWithinGrid (cellSpan a) (config gridState) = true.

Definition windowsApart (gridState : GridState) : Prop :=
  forall a b,
    In a (assignments gridState) -> In b (assignments gridState) ->
    windowId a <> windowId b ->
    cellSpansOverlap (cellSpan a) (cellSpan b) = false.

Definition placementOk (gridState : GridState) : Prop :=
  allWithinGrid gridState /\ windowsApart gridState.

(** No window id is assigned twice. *)
Definition uniqueIds (gridState : GridState) : Prop :=
  NoDup (map windowId (assignments gridState)).

(** The cell (r, c) lies in the span of no assignment. *)
Definition uncovered (gridState : GridState) (r c : Z) : Prop :=
  forall a, In a (assignments gridState) -> ~ covers (cellSpan a) r c.

(** The id that holds, after a swap of [id1] and [id2], the span that the
    window [w] held before. *)
Definition swappedId (id1 id2 w : string) : string :=
  if String.eqb w id1 then id2
  else if String.eqb w id2 then id1
  else w.

(** A state that holds no assignment. *)
Definition withoutAssignments (gridState : GridState) : Prop :=
  assignments gridState = [].

(** ** The monitor service ([grid/monitor-info.ts])

    [getAllMonitors] asks the operating system; the list it returned is
    the argument [monitors] of the functions below, which are the
    functions of the source after the [await]. *)

Definition getMonitor (idx : Z) (monitors : list MonitorInfo)
    : option MonitorInfo :=
  find (fun m => index m =? idx) monitors.

Definition getPrimaryMonitor (monitors : list MonitorInfo)
    : outcome MonitorInfo :=
  match find (fun m => isPrimary m) monitors with
  | Some primary => Return primary
  | None =>
      match monitors with
      | first :: _ => Return first
      | [] => Throw "No monitors detected"
      end
  end.

Definition getMonitorCount (monitors : list MonitorInfo) : Z :=
  Z.of_nat (List.length monitors).

(** The module variables [monitorCache] and [cacheTimestamp]. *)
Record MonitorCache := mkMonitorCache {
  monitorCache : option (list MonitorInfo);
  cacheTimestamp : Z
}.

Definition CACHE_TTL_MS : Z := 5000.

Definition initialMonitorCache : MonitorCache :=
  {| monitorCache := None; cacheTimestamp := 0 |}.

(** [getCachedMonitors(forceRefresh)]: [now] is the reading of [Date.now()]
    and [fetched] the list [getAllMonitors] returns if it is called; the
    result is the returned list with the new value of the module
    variables.  An array, even an empty one, is truthy. *)
Definition getCachedMonitors (forceRefresh : bool) (now : Z)
    (fetched : list MonitorInfo) (cache : MonitorCache)
    : list MonitorInfo * MonitorCache :=
  match monitorCache cache with
  | Some cached =>
      if negb forceRefresh && (now - cacheTimestamp cache <? CACHE_TTL_MS)
      then (cached, cache)
      else (fetched, {| monitorCache := Some fetched; cacheTimestamp := now |})
  | None => (fetched, {| monitorCache := Some fetched; cacheTimestamp := now |})
  end.

Definition clearMonitorCache (cache : MonitorCache) : MonitorCache :=
  {| monitorCache := None; cacheTimestamp := 0 |}.

(** ** Geometry of the assigned windows ([grid/grid-manager.ts]) *)


Definition getCellDimensions (cfg : GridConfig) (monitors : list MonitorInfo)
    : outcome CellDimensions :=
  match getMonitor (monitorIndex cfg) monitors with
  | None => Throw ("Monitor " ++ toString (monitorIndex cfg) ++ " not found")
  | Some monitorInfo => Return (calculateAllCells cfg monitorInfo)
  end.

(** One element of [GridLayoutInfo.assignments], and [GridLayoutInfo]; the
    fields that other records own carry the prefix [layout]. *)
Record LayoutEntry := mkLayoutEntry {
  layoutWindowId : string;
  canvasKind : option string;
  cellSpec : string;
  position : PixelRect
}.

Record GridLayoutInfo := mkGridLayoutInfo {
  layoutConfig : GridConfig;
  layoutMonitor : MonitorInfo;
  dimensions : CellDimensions;
  layoutAssignments : list LayoutEntry;
  availableCells : list CellAddress
}.

(** [windowKinds] is the map from window ids to canvas kinds; a missing
    key and a [null] value both read as [None]. *)
Definition getGridLayoutInfo (gridState : GridState)
    (windowKinds : string -> option string) (monitors : list MonitorInfo)
    : outcome GridLayoutInfo :=
  match getMonitor (monitorIndex (config gridState)) monitors with
  | None =>
      Throw ("Monitor " ++ toString (monitorIndex (config gridState))
             ++ " not found")
  | Some monitorInfo =>
      Return
        {| layoutConfig := config gridState;
           layoutMonitor := monitorInfo;
           dimensions := calculateAllCells (config gridState) monitorInfo;
           layoutAssignments :=
             map (fun a =>
                    {| layoutWindowId := windowId a;
                       canvasKind := windowKinds (windowId a);
                       cellSpec := formatCellSpec (cellSpan a);
                       position :=
                         calculateCellRect (cellSpan a) (config gridState)
                           monitorInfo |})
                 (assignments gridState);
           availableCells := getAvailableCells gridState |}
  end.


(** A second monitor, to the right of [mockMonitor]. *)
Definition secondMonitor : MonitorInfo :=
  {| index := 1; name := "\\.\DISPLAY2";
     screenWidth := 2560; screenHeight := 1440;
     workAreaX := 1920; workAreaY := 0;
     workAreaWidth := 2560; workAreaHeight := 1400;
     scaleFactor := QArith_base.Qmake 1 1; isPrimary := false |}.

(* ================================================================== *)
(** * Part II: properties *)
(* ================================================================== *)

(** ** Pixel arithmetic *)

Section FloorDivision.

Variables available gap count : Z.
Hypothesis count_pos : 1 <= count.



End FloorDivision.



(** C9. [calculateCellRect] places a span at
    workAreaOrigin + margin + startIndex * (cellSize + gap) and gives it the
    size span * cellSize + (span - 1) * gap on each axis, with the cell size
    of [calculateSingleCellSize].  A 2x2 span at (0,0) on a 1920x1040 work
    area at the origin, with the 3x3, 4px-gap, margin-free layout, is the
    rectangle (0, 0, 1278, 692). *)
Theorem calculateCellRect_formula (span : CellSpan) (cfg : GridConfig)
    (monitor : MonitorInfo) :
  let size := calculateSingleCellSize cfg monitor in
  calculateCellRect span cfg monitor
  = {| x := workAreaX monitor + marginLeft cfg
            + startColumn span * (cellWidth size + cellGapHorizontal cfg);
       y := workAreaY monitor + marginTop cfg
            + startRow span * (cellHeight size + cellGapVertical cfg);
       width := columnSpan span * cellWidth size
                + (columnSpan span - 1) * cellGapHorizontal cfg;
       height := rowSpan span * cellHeight size
                 + (rowSpan span - 1) * cellGapVertical cfg |}
  /\ (defaultLayout cfg -> workArea1920x1040 monitor -> workAreaAtOrigin monitor ->
      span = {| startRow := 0; startColumn := 0; rowSpan := 2; columnSpan := 2 |} ->
      calculateCellRect span cfg monitor
      = {| x := 0; y := 0; width := 1278; height := 692 |}).
Proof.
  split; [reflexivity|].
  intros (Hr & Hc & Hgh & Hgv & Hmt & Hmb & Hml & Hmr) (Hw & Hh) (Hx & Hy) ->.
  unfold calculateCellRect; cbn [startRow startColumn rowSpan columnSpan].
  rewrite Hr, Hc, Hgh, Hgv, Hmt, Hmb, Hml, Hmr, Hw, Hh, Hx, Hy. reflexivity.
Qed.

Lemma calculateCellRect_formula_witness :
  calculateCellRect
    {| startRow := 0; startColumn := 0; rowSpan := 2; columnSpan := 2 |}
    DEFAULT_GRID_CONFIG mockMonitor
  = {| x := 0; y := 0; width := 1278; height := 692 |}.
Proof.
  apply (calculateCellRect_formula
           {| startRow := 0; startColumn := 0; rowSpan := 2; columnSpan := 2 |}
           DEFAULT_GRID_CONFIG mockMonitor).
  - repeat split.
  - split; reflexivity.
  - split; reflexivity.
  - reflexivity.
Defined.

(** ** Assignment lists *)

(** The test [a.windowId === w]. *)
Local Abbreviation hasId w := (fun a : CellAssignment => String.eqb (windowId a) w).

Section Assignments.

Implicit Types (l : list CellAssignment) (a : CellAssignment) (w : string).

Lemma filter_other_then_same w l :
  filter (hasId w) (filter (fun a => negb (String.eqb (windowId a) w)) l) = [].
Proof.
  induction l as [|a l IH]; cbn; [reflexivity|].
  destruct (String.eqb (windowId a) w) eqn:E; cbn; [exact IH|].
  rewrite E. exact IH.
Qed.

Lemma filter_other_keeps w w' l :
  w' <> w ->
  filter (hasId w') (filter (fun a => negb (String.eqb (windowId a) w)) l) = filter (hasId w') l.
Proof.
  intros Hne.
  induction l as [|a l IH]; cbn; [reflexivity|].
  destruct (String.eqb (windowId a) w) eqn:E; cbn.
  - destruct (String.eqb (windowId a) w') eqn:E'; [|exact IH].
    apply String.eqb_eq in E, E'. congruence.
  - destruct (String.eqb (windowId a) w'); [f_equal|]; exact IH.
Qed.

Lemma filter_other_idem w l :
  filter (fun a => negb (String.eqb (windowId a) w)) (filter (fun a => negb (String.eqb (windowId a) w)) l)
  = filter (fun a => negb (String.eqb (windowId a) w)) l.
Proof.
  induction l as [|a l IH]; cbn; [reflexivity|].
  destruct (String.eqb (windowId a) w) eqn:E; cbn; [exact IH|].
  rewrite E. cbn. f_equal. exact IH.
Qed.

Lemma find_none_app w l l' :
  find (hasId w) l = None -> find (hasId w) (l ++ l') = find (hasId w) l'.
Proof.
  induction l as [|a l IH]; cbn; [reflexivity|].
  destruct (String.eqb (windowId a) w); [discriminate|exact IH].
Qed.

Lemma find_filter_other w l :
  find (hasId w) (filter (fun a => negb (String.eqb (windowId a) w)) l) = None.
Proof.
  induction l as [|a l IH]; cbn; [reflexivity|].
  destruct (String.eqb (windowId a) w) eqn:E; cbn; [exact IH|].
  rewrite E. exact IH.
Qed.

Lemma find_map_same_id w (f : CellAssignment -> CellAssignment) l :
  (forall a, windowId (f a) = windowId a) ->
  find (hasId w) (map f l) = option_map f (find (hasId w) l).
Proof.
  intros Hid.
  induction l as [|a l IH]; cbn; [reflexivity|].
  rewrite Hid.
  destruct (String.eqb (windowId a) w); [reflexivity|exact IH].
Qed.

Lemma find_hasId_id w l a : find (hasId w) l = Some a -> windowId a = w.
Proof.
  intros H. apply find_some in H. destruct H as [_ H].
  apply String.eqb_eq in H. exact H.
Qed.

End Assignments.

(** C6. [assignWindowToGrid] drops every assignment of the window id and
    appends the new one: the resulting state holds exactly one assignment
    for the id, with the new span; the assignments of the other windows are
    kept; [lastUpdated] is the new clock reading; and assigning again
    gives the same state as assigning once. *)
Theorem assignWindowToGrid_one_assignment (wid : string) (span : CellSpan)
    (gridState : GridState) (now : string) :
  let fresh := {| windowId := wid; cellSpan := span; zIndex := None |} in
  let after := assignWindowToGrid wid span gridState now in
  assignments after
  = filter (fun a => negb (String.eqb (windowId a) wid)) (assignments gridState)
    ++ [fresh]
  /\ assignmentsOf wid after = [fresh]
  /\ getWindowCellSpan wid after = Some span
  /\ (forall other, other <> wid ->
      assignmentsOf other after = assignmentsOf other gridState)
  /\ lastUpdated after = now
  /\ config after = config gridState
  /\ (forall span' now',
      assignWindowToGrid wid span' after now'
      = assignWindowToGrid wid span' gridState now').
Proof.
  intros fresh after.
  split; [reflexivity|].
  split.
  { unfold assignmentsOf, after, assignWindowToGrid; cbn [assignments].
    rewrite filter_app.
    rewrite (filter_other_then_same wid). cbn.
    rewrite String.eqb_refl. reflexivity. }
  split.
  { unfold getWindowCellSpan, after, assignWindowToGrid; cbn [assignments].
    rewrite (find_none_app wid) by apply find_filter_other.
    cbn. rewrite String.eqb_refl. reflexivity. }
  split.
  { intros other Hne.
    unfold assignmentsOf, after, assignWindowToGrid; cbn [assignments].
    rewrite filter_app, (filter_other_keeps wid other) by exact Hne.
    cbn. destruct (String.eqb_spec wid other) as [E|_]; [congruence|].
    apply app_nil_r. }
  split; [reflexivity|].
  split; [reflexivity|].
  intros span' now'.
  unfold after, assignWindowToGrid; cbn [assignments desktopIndex config].
  rewrite filter_app, (filter_other_idem wid). cbn.
  rewrite String.eqb_refl. cbn. rewrite app_nil_r. reflexivity.
Qed.

(** C7. When both windows have an assignment, [swapWindowPositions] returns
    a state in which each of the two holds the span the other one held, the
    other windows hold what they held, and the list of assignments has the
    same length and the same window ids.  When one of them has none it
    throws, and it never returns a state in any other case. *)
Theorem swapWindowPositions_exchanges (id1 id2 : string) (gridState : GridState)
    (now : string) :
  (forall span1 span2,
      getWindowCellSpan id1 gridState = Some span1 ->
      getWindowCellSpan id2 gridState = Some span2 ->
      exists after,
        swapWindowPositions id1 id2 gridState now = Return after
        /\ getWindowCellSpan id1 after = Some span2
        /\ getWindowCellSpan id2 after = Some span1
        /\ (forall other, other <> id1 -> other <> id2 ->
            getWindowCellSpan other after = getWindowCellSpan other gridState)
        /\ List.length (assignments after) = List.length (assignments gridState)
        /\ map windowId (assignments after) = map windowId (assignments gridState)
        /\ lastUpdated after = now)
  /\ (getWindowCellSpan id1 gridState = None
      \/ getWindowCellSpan id2 gridState = None ->
      swapWindowPositions id1 id2 gridState now
      = Throw "Both windows must have grid assignments to swap")
  /\ (forall after,
      swapWindowPositions id1 id2 gridState now = Return after ->
      exists span1 span2,
        getWindowCellSpan id1 gridState = Some span1
        /\ getWindowCellSpan id2 gridState = Some span2
        /\ getWindowCellSpan id1 after = Some span2
        /\ getWindowCellSpan id2 after = Some span1).
Proof.
  assert (Hswap : forall span1 span2,
      getWindowCellSpan id1 gridState = Some span1 ->
      getWindowCellSpan id2 gridState = Some span2 ->
      exists after,
        swapWindowPositions id1 id2 gridState now = Return after
        /\ getWindowCellSpan id1 after = Some span2
        /\ getWindowCellSpan id2 after = Some span1
        /\ (forall other, other <> id1 -> other <> id2 ->
            getWindowCellSpan other after = getWindowCellSpan other gridState)
        /\ List.length (assignments after) = List.length (assignments gridState)
        /\ map windowId (assignments after) = map windowId (assignments gridState)
        /\ lastUpdated after = now).
  { intros span1 span2 H1 H2.
    unfold swapWindowPositions. rewrite H1, H2.
    eexists. split; [reflexivity|].
    set (f := fun a : CellAssignment =>
                if String.eqb (windowId a) id1 then
                  {| windowId := windowId a; cellSpan := span2; zIndex := zIndex a |}
                else if String.eqb (windowId a) id2 then
                  {| windowId := windowId a; cellSpan := span1; zIndex := zIndex a |}
                else a).
    assert (Hid : forall a, windowId (f a) = windowId a).
    { intros a. unfold f.
      destruct (String.eqb (windowId a) id1); [reflexivity|].
      destruct (String.eqb (windowId a) id2); reflexivity. }
    unfold getWindowCellSpan in *; cbn [assignments lastUpdated].
    split.
    { rewrite (find_map_same_id id1 f) by exact Hid.
      destruct (find (hasId id1) (assignments gridState)) as [a1|] eqn:F1;
        [|discriminate].
      cbn. apply find_hasId_id in F1. unfold f.
      rewrite F1, String.eqb_refl. reflexivity. }
    split.
    { rewrite (find_map_same_id id2 f) by exact Hid.
      destruct (find (hasId id2) (assignments gridState)) as [a2|] eqn:F2;
        [|discriminate].
      cbn. pose proof (find_hasId_id _ _ _ F2) as Ha2. unfold f.
      rewrite Ha2.
      destruct (String.eqb_spec id2 id1) as [E|_].
      - rewrite E in F2. rewrite F2 in H1. cbn. congruence.
      - rewrite String.eqb_refl. cbn. congruence. }
    split.
    { intros other Hn1 Hn2.
      rewrite (find_map_same_id other f) by exact Hid.
      destruct (find (hasId other) (assignments gridState)) as [a|] eqn:F;
        [|reflexivity].
      cbn. apply find_hasId_id in F. unfold f. rewrite F.
      destruct (String.eqb_spec other id1) as [E|_]; [congruence|].
      destruct (String.eqb_spec other id2) as [E|_]; [congruence|].
      reflexivity. }
    split; [apply length_map|].
    split; [|reflexivity].
    rewrite map_map. apply map_ext. exact Hid. }
  split; [exact Hswap|].
  split.
  { intros [H|H]; unfold swapWindowPositions; rewrite H; [reflexivity|].
    destruct (getWindowCellSpan id1 gridState); reflexivity. }
  intros after Hret.
  destruct (getWindowCellSpan id1 gridState) as [span1|] eqn:H1.
  2:{ unfold swapWindowPositions in Hret. rewrite H1 in Hret. discriminate. }
  destruct (getWindowCellSpan id2 gridState) as [span2|] eqn:H2.
  2:{ unfold swapWindowPositions in Hret. rewrite H1, H2 in Hret. discriminate. }
  destruct (Hswap span1 span2 eq_refl eq_refl) as (after' & Hret' & Hs1 & Hs2 & _).
  rewrite Hret in Hret'. injection Hret' as <-.
  exists span1, span2. repeat split; assumption.
Qed.

Lemma swapWindowPositions_exchanges_witness :
  getWindowCellSpan "win-1" swapFixture = Some cellA1
  /\ getWindowCellSpan "win-2" swapFixture = Some cellC3
  /\ exists after,
      swapWindowPositions "win-1" "win-2" swapFixture t3 = Return after
      /\ getWindowCellSpan "win-1" after = Some cellC3
      /\ getWindowCellSpan "win-2" after = Some cellA1
      /\ List.length (assignments after) = 2%nat.
Proof.
  split; [reflexivity|]. split; [reflexivity|].
  destruct (swapWindowPositions_exchanges "win-1" "win-2" swapFixture t3)
    as (Hswap & _ & _).
  destruct (Hswap cellA1 cellC3 eq_refl eq_refl)
    as (after & Hret & H1 & H2 & _ & Hlen & _).
  exists after. repeat split; assumption.
Defined.

(** ** Loops *)

Section Loops.

Lemma countFrom_nil (lo n : Z) : n <= 0 -> countFrom lo n = [].
Proof.
  intros H. unfold countFrom.
  replace (Z.to_nat n) with 0%nat by lia. reflexivity.
Qed.

Lemma countFrom_cons (lo n : Z) :
  0 < n -> countFrom lo n = lo :: countFrom (lo + 1) (n - 1).
Proof.
  intros H. unfold countFrom.
  replace (Z.to_nat n) with (S (Z.to_nat (n - 1))) by lia.
  cbn [seq map]. f_equal; [lia|].
  rewrite <- seq_shift, map_map.
  apply map_ext. intros k. lia.
Qed.

Lemma In_countFrom (lo n i : Z) : In i (countFrom lo n) <-> lo <= i < lo + n.
Proof.
  unfold countFrom. rewrite in_map_iff. split.
  - intros (k & <- & Hk). apply in_seq in Hk. lia.
  - intros H. exists (Z.to_nat (i - lo)). split; [lia|].
    apply in_seq. lia.
Qed.

Context {B : Type} (body : Z -> option B).

(** A loop with an early [return] yields what its body returns at the
    first index where it returns, and nothing if it never does. *)
Lemma firstReturn_countFrom (lo n : Z) :
  match firstReturn body (countFrom lo n) with
  | Some b =>
      exists i, lo <= i < lo + n /\ body i = Some b
                /\ forall j, lo <= j < i -> body j = None
  | None => forall j, lo <= j < lo + n -> body j = None
  end.
Proof.
  remember (Z.to_nat n) as fuel eqn:Hfuel.
  revert lo n Hfuel.
  induction fuel as [|fuel IH]; intros lo n Hfuel.
  - rewrite countFrom_nil by lia. cbn. intros j Hj. lia.
  - rewrite countFrom_cons by lia. cbn [firstReturn].
    destruct (body lo) as [b|] eqn:Hlo.
    + exists lo. split; [lia|]. split; [exact Hlo|]. intros j Hj. lia.
    + specialize (IH (lo + 1) (n - 1) ltac:(lia)).
      destruct (firstReturn body (countFrom (lo + 1) (n - 1))) as [b|].
      * destruct IH as (i & Hi & Hb & Hfirst).
        exists i. split; [lia|]. split; [exact Hb|].
        intros j Hj. destruct (Z.eq_dec j lo) as [->|Hne]; [exact Hlo|].
        apply Hfirst. lia.
      * intros j Hj. destruct (Z.eq_dec j lo) as [->|Hne]; [exact Hlo|].
        apply IH. lia.
Qed.

Lemma firstReturn_upTo (hi : Z) :
  match firstReturn body (upTo hi) with
  | Some b =>
      exists i, 0 <= i <= hi /\ body i = Some b
                /\ forall j, 0 <= j < i -> body j = None
  | None => forall j, 0 <= j <= hi -> body j = None
  end.
Proof.
  unfold upTo. pose proof (firstReturn_countFrom 0 (hi + 1)) as H.
  destruct (firstReturn body (countFrom 0 (hi + 1))) as [b|].
  - destruct H as (i & Hi & Hb & Hfirst). exists i.
    split; [lia|]. split; [exact Hb|exact Hfirst].
  - intros j Hj. apply H. lia.
Qed.

End Loops.

Lemma firstReturn_app {A B : Type} (body : A -> option B) (l1 l2 : list A) :
  (forall a, In a l1 -> body a = None) ->
  firstReturn body (l1 ++ l2) = firstReturn body l2.
Proof.
  induction l1 as [|a l1 IH]; intros H; [reflexivity|].
  cbn. rewrite (H a) by (left; reflexivity).
  apply IH. intros a' Ha'. apply H. right. exact Ha'.
Qed.

Lemma firstReturn_all_none {A B : Type} (body : A -> option B) (l : list A) :
  (forall a, In a l -> body a = None) -> firstReturn body l = None.
Proof.
  intros H. rewrite <- (app_nil_r l). rewrite firstReturn_app by exact H.
  reflexivity.
Qed.

(** ** Validation *)

Lemma isExcluded_other (e : string) (a : CellAssignment) :
  e <> windowId a -> isExcluded (Some e) a = false.
Proof.
  intros Hne. unfold isExcluded.
  destruct (String.eqb_spec (windowId a) e) as [E|_]; [congruence|].
  apply andb_false_r.
Qed.

Lemma isExcluded_self (a : CellAssignment) :
  windowId a <> EmptyString -> isExcluded (Some (windowId a)) a = true.
Proof.
  intros Hne. unfold isExcluded, truthy.
  rewrite String.eqb_refl.
  destruct (String.eqb_spec (windowId a) EmptyString) as [E|_]; [congruence|].
  reflexivity.
Qed.

(** C2 (as the code has it). [validateCellSpan] checks the bounds first: an
    out-of-bounds span gets the out-of-bounds error whatever the
    assignments.  For a span within bounds the result is the overlap error
    of the first assignment, in list order, that is not excluded and
    overlaps: when window A holds span S, the span overlaps S, A is not the
    excluded id, and every assignment listed before is excluded or does not
    overlap, the error names A and S.  With a non-empty excludeWindowId = A
    the assignments of A are skipped, and the result is valid when the span
    is within bounds and no assignment of another window overlaps it. *)
Theorem validateCellSpan_bounds_then_first_overlap (span : CellSpan)
    (gridState : GridState) (excludeWindowId : option string) :
  (isWithinGrid span (config gridState) = false ->
   validateCellSpan span gridState excludeWindowId
   = {| valid := false; error := Some (boundsError span (config gridState)) |})
  /\ (forall before a rest,
      isWithinGrid span (config gridState) = true ->
      assignments gridState = before ++ a :: rest ->
      (forall b, In b before ->
         isExcluded excludeWindowId b = true
         \/ cellSpansOverlap span (cellSpan b) = false) ->
      (excludeWindowId = None
       \/ exists e, excludeWindowId = Some e /\ e <> windowId a) ->
      cellSpansOverlap span (cellSpan a) = true ->
      validateCellSpan span gridState excludeWindowId
      = {| valid := false; error := Some (overlapError a) |})
  /\ (forall A,
      excludeWindowId = Some A -> A <> EmptyString ->
      isWithinGrid span (config gridState) = true ->
      (forall b, In b (assignments gridState) -> windowId b <> A ->
         cellSpansOverlap span (cellSpan b) = false) ->
      validateCellSpan span gridState excludeWindowId
      = {| valid := true; error := None |}).
Proof.
  split; [|split].
  - intros Hout. unfold validateCellSpan. rewrite Hout. reflexivity.
  - intros before a rest Hin Hlist Hbefore Hex Hov.
    unfold validateCellSpan. rewrite Hin, Hlist. cbn [negb].
    rewrite firstReturn_app.
    + cbn [firstReturn].
      assert (Hnot : isExcluded excludeWindowId a = false).
      { destruct Hex as [->|(e & -> & Hne)]; [reflexivity|].
        apply isExcluded_other. exact Hne. }
      rewrite Hnot, Hov. reflexivity.
    + intros b Hb. destruct (Hbefore b Hb) as [E|E]; rewrite E; [reflexivity|].
      destruct (isExcluded excludeWindowId b); reflexivity.
  - intros A -> Hne Hin Hothers.
    unfold validateCellSpan. rewrite Hin. cbn [negb].
    rewrite firstReturn_all_none; [reflexivity|].
    intros b Hb.
    destruct (String.string_dec (windowId b) A) as [E|E].
    + subst A. rewrite isExcluded_self by exact Hne. reflexivity.
    + rewrite (Hothers b Hb E).
      destruct (isExcluded (Some A) b); reflexivity.
Qed.

Lemma validateCellSpan_bounds_then_first_overlap_witness :
  validateCellSpan (singleCell 3 0) twoWindows (Some "win-1")
  = {| valid := false;
       error := Some "Cell span A4 is outside grid bounds (3x3)" |}
  /\ validateCellSpan cellB1 twoWindows (Some "win-1")
     = {| valid := false;
          error := Some "Cell span overlaps with window win-2 at B1" |}
  /\ validateCellSpan cellB1 twoWindows (Some "win-2")
     = {| valid := true; error := None |}.
Proof.
  split; [|split].
  - destruct (validateCellSpan_bounds_then_first_overlap
                (singleCell 3 0) twoWindows (Some "win-1")) as (Hbounds & _ & _).
    apply Hbounds. reflexivity.
  - destruct (validateCellSpan_bounds_then_first_overlap
                cellB1 twoWindows (Some "win-1")) as (_ & Hoverlap & _).
    apply (Hoverlap [win1OnA1] win2OnB1 []).
    + reflexivity.
    + reflexivity.
    + intros b [<-|[]]. left. reflexivity.
    + right. exists "win-1". split; [reflexivity|discriminate].
    + reflexivity.
  - destruct (validateCellSpan_bounds_then_first_overlap
                cellB1 twoWindows (Some "win-2")) as (_ & _ & Hskip).
    apply (Hskip "win-2").
    + reflexivity.
    + discriminate.
    + reflexivity.
    + intros b [<-|[<-|[]]] Hid; [reflexivity|].
      exfalso. apply Hid. reflexivity.
Defined.

(** C2 (as stated) fails: with [win-1] on A1 and [win-2] on B1, the span
    A1:B1 is within bounds and overlaps the span of [win-2], yet validating
    it without an excluded id reports [win-1] and A1, the first overlap in
    list order, and not [win-2] and B1. *)
Lemma validateCellSpan_names_every_overlap_counterexample :
  In win2OnB1 (assignments twoWindows)
  /\ isWithinGrid rangeA1B1 (config twoWindows) = true
  /\ cellSpansOverlap rangeA1B1 (cellSpan win2OnB1) = true
  /\ validateCellSpan rangeA1B1 twoWindows None
     = {| valid := false;
          error := Some "Cell span overlaps with window win-1 at A1" |}
  /\ validateCellSpan rangeA1B1 twoWindows None
     <> {| valid := false; error := Some (overlapError win2OnB1) |}.
Proof.
  split; [right; left; reflexivity|].
  split; [reflexivity|]. split; [reflexivity|]. split; [reflexivity|].
  vm_compute. discriminate.
Qed.

(** An empty excludeWindowId is falsy and excludes nothing, not even a
    window whose id is the empty string. *)
Example validateCellSpan_empty_exclude_id :
  getWindowCellSpan EmptyString unnamedWindow = Some cellA1
  /\ validateCellSpan cellA1 unnamedWindow (Some EmptyString)
     = {| valid := false;
          error := Some "Cell span overlaps with window  at A1" |}.
Proof. split; reflexivity. Qed.

(** ** Characters and decimal numerals *)

Lemma allChars_weaken (p q : ascii -> bool) (s : string) :
  (forall c, p c = true -> q c = true) ->
  allChars p s = true -> allChars q s = true.
Proof.
  intros Hpq. induction s as [|c s IH]; cbn; [reflexivity|].
  intros H. apply andb_prop in H. destruct H as [Hc Hs].
  rewrite (Hpq c Hc), (IH Hs). reflexivity.
Qed.

Lemma allChars_app (p : ascii -> bool) (s1 s2 : string) :
  allChars p (s1 ++ s2)%string = allChars p s1 && allChars p s2.
Proof.
  induction s1 as [|c s1 IH]; cbn; [reflexivity|].
  rewrite IH. apply andb_assoc.
Qed.

Lemma charCode_inj (c d : ascii) : charCode c = charCode d -> c = d.
Proof.
  unfold charCode. intros H. apply N2Z.inj in H.
  rewrite <- (ascii_N_embedding c), <- (ascii_N_embedding d), H. reflexivity.
Qed.

Lemma isChar_code (d c : ascii) : isChar d c = true -> charCode c = charCode d.
Proof.
  unfold isChar. intros H. apply Ascii.eqb_eq in H. subst. reflexivity.
Qed.

Section Decimal.

Lemma string_of_uint_digits (d : uint) :
  allChars isDigit (NilEmpty.string_of_uint d) = true.
Proof. induction d; cbn; auto. Qed.

Lemma string_of_uint_nonempty (d : uint) :
  d <> Nil -> NilEmpty.string_of_uint d <> EmptyString.
Proof. destruct d; cbn; intros H; congruence. Qed.

Lemma toString_nonneg (n : Z) :
  0 <= n -> toString n = NilZero.string_of_uint (N.to_uint (Z.to_N n)).
Proof. destruct n; cbn; try reflexivity; lia. Qed.

Lemma NilZero_string_of_uint_digits (d : uint) :
  allChars isDigit (NilZero.string_of_uint d) = true
  /\ NilZero.string_of_uint d <> EmptyString.
Proof.
  split.
  - destruct d; try reflexivity; apply (string_of_uint_digits (_ _)).
  - destruct d; cbn; congruence.
Qed.

Lemma toString_digits (n : Z) :
  0 <= n -> allChars isDigit (toString n) = true /\ toString n <> EmptyString.
Proof.
  intros H. rewrite toString_nonneg by exact H.
  apply NilZero_string_of_uint_digits.
Qed.

(** Reading the digits of a numeral from the left. *)
Lemma parseDigits_string_of_uint (d acc : uint) :
  parseDigits (Z.of_N (Unsigned.of_lu acc)) (NilEmpty.string_of_uint d)
  = Z.of_N (Unsigned.of_lu (revapp d acc)).
Proof.
  revert acc.
  induction d; intros acc; cbn [NilEmpty.string_of_uint revapp]; [reflexivity|..];
    cbn [parseDigits]; (change (isDigit _) with true); cbv iota;
    rewrite <- IHd; f_equal; cbn [Unsigned.of_lu];
    unfold charCode; cbn [N_of_ascii N_of_digits]; lia.
Qed.

Lemma parseInt10_toString (n : Z) : 0 <= n -> parseInt10 (toString n) = n.
Proof.
  intros H. rewrite toString_nonneg by exact H. unfold parseInt10.
  assert (E : parseDigits 0 (NilEmpty.string_of_uint (N.to_uint (Z.to_N n)))
              = n).
  { rewrite (parseDigits_string_of_uint _ Nil).
    change (revapp ?d Nil) with (rev d).
    rewrite <- Unsigned.of_uint_alt.
    change (Pos.of_uint ?d) with (N.of_uint d).
    rewrite DecimalN.Unsigned.of_to. lia. }
  destruct (N.to_uint (Z.to_N n)); exact E.
Qed.

Lemma toString_inj (a b : Z) : toString a = toString b -> a = b.
Proof.
  unfold toString. intros H.
  assert (Hnz : forall z, Z.to_int z <> Pos Nil /\ Z.to_int z <> Neg Nil).
  { intros [|p|p]; cbn; split; try discriminate; intros E; injection E as E;
      exact (Unsigned.to_uint_nonnil _ E). }
  apply DecimalZ.to_int_inj.
  destruct (Hnz a) as [Ha1 Ha2]. destruct (Hnz b) as [Hb1 Hb2].
  pose proof (NilZero.isi _ Ha1 Ha2) as Ea.
  pose proof (NilZero.isi _ Hb1 Hb2) as Eb.
  rewrite H in Ea. congruence.
Qed.

Lemma toString_no_comma (n : Z) : allChars notComma (toString n) = true.
Proof.
  assert (Hd : forall d, allChars notComma (NilZero.string_of_uint d) = true).
  { intros d. apply (allChars_weaken isDigit).
    - intros c Hc. unfold notComma.
      destruct (isChar "," c) eqn:E; [|reflexivity].
      apply isChar_code in E. unfold isDigit in Hc. rewrite E in Hc.
      discriminate.
    - apply NilZero_string_of_uint_digits. }
  unfold toString. destruct (Z.to_int n); cbn [NilZero.string_of_int].
  - apply Hd.
  - cbn. apply Hd.
Qed.

End Decimal.

(** ** Occupied cells *)

Lemma append_comma_inj (s1 s2 t1 t2 : string) :
  allChars notComma s1 = true -> allChars notComma s2 = true ->
  (s1 ++ String "," t1)%string = (s2 ++ String "," t2)%string ->
  s1 = s2 /\ t1 = t2.
Proof.
  revert s2. induction s1 as [|c s1 IH]; intros [|d s2] H1 H2 E; cbn in *.
  - injection E as E. split; [reflexivity|exact E].
  - injection E as Ec _. subst d. discriminate.
  - injection E as Ec _. subst c. discriminate.
  - injection E as Ec E. subst d.
    apply andb_prop in H1, H2.
    destruct (IH s2 (proj2 H1) (proj2 H2) E) as [-> ->].
    split; reflexivity.
Qed.

Lemma cellKey_inj (r c r' c' : Z) :
  cellKey r c = cellKey r' c' -> r = r' /\ c = c'.
Proof.
  unfold cellKey. cbn [append]. intros E.
  apply append_comma_inj in E; try apply toString_no_comma.
  destruct E as [Er Ec].
  split; apply toString_inj; assumption.
Qed.

Lemma In_getCellsInSpan (span : CellSpan) (r c : Z) :
  In {| row := r; column := c |} (getCellsInSpan span) <-> covers span r c.
Proof.
  unfold getCellsInSpan, covers. rewrite in_flat_map. split.
  - intros (r0 & Hr & Hc). apply in_map_iff in Hc.
    destruct Hc as (c0 & E & Hc). injection E as -> ->.
    apply In_countFrom in Hr, Hc. split; assumption.
  - intros [Hr Hc]. exists r. split; [apply In_countFrom; exact Hr|].
    apply in_map_iff. exists c. split; [reflexivity|].
    apply In_countFrom; exact Hc.
Qed.

Lemma flat_map_nil_inv {A B : Type} (f : A -> list B) (l : list A) :
  flat_map f l = [] -> forall a, In a l -> f a = [].
Proof.
  induction l as [|a0 l IH]; cbn; intros E a Ha; [contradiction|].
  apply app_eq_nil in E. destruct E as [E0 E].
  destruct Ha as [<-|Ha]; [exact E0|]. apply IH; assumption.
Qed.

(** No free cell: every cell of the grid lies in the span of an
    assignment. *)
Lemma fullyPacked_covered (gridState : GridState) :
  fullyPacked gridState ->
  forall r c,
    0 <= r < rows (config gridState) -> 0 <= c < columns (config gridState) ->
    exists a, In a (assignments gridState) /\ covers (cellSpan a) r c.
Proof.
  unfold fullyPacked, getAvailableCells. intros Hnil r c Hr Hc.
  pose proof (flat_map_nil_inv _ _ Hnil r) as Hrow.
  cbv beta in Hrow.
  specialize (Hrow ltac:(apply In_countFrom; lia)).
  pose proof (flat_map_nil_inv _ _ Hrow c) as Hcell.
  cbv beta in Hcell.
  specialize (Hcell ltac:(apply In_countFrom; lia)).
  match type of Hcell with
  | (if ?b then _ else _) = _ => destruct b eqn:Hocc; [|discriminate]
  end.
  apply existsb_exists in Hocc. destruct Hocc as (key & Hkey & Heq).
  apply String.eqb_eq in Heq. subst key.
  apply in_flat_map in Hkey. destruct Hkey as (a & Ha & Hkey).
  apply in_map_iff in Hkey. destruct Hkey as ([r' c'] & E & Hcell').
  cbn [row column] in E. apply cellKey_inj in E. destruct E as [-> ->].
  exists a. split; [exact Ha|]. apply In_getCellsInSpan. exact Hcell'.
Qed.

Lemma flat_map_nil_intro {A B : Type} (f : A -> list B) (l : list A) :
  (forall a, In a l -> f a = []) -> flat_map f l = [].
Proof.
  induction l as [|a0 l IH]; cbn; intros H; [reflexivity|].
  rewrite (H a0) by (left; reflexivity). cbn.
  apply IH. intros a Ha. apply H. right. exact Ha.
Qed.

(** Conversely, a grid whose cells are all covered has no free cell. *)
Lemma covered_fullyPacked (gridState : GridState) :
  (forall r c,
      0 <= r < rows (config gridState) -> 0 <= c < columns (config gridState) ->
      exists a, In a (assignments gridState) /\ covers (cellSpan a) r c) ->
  fullyPacked gridState.
Proof.
  intros Hcov. unfold fullyPacked, getAvailableCells.
  apply flat_map_nil_intro. intros r Hr. apply In_countFrom in Hr.
  apply flat_map_nil_intro. intros c Hc. apply In_countFrom in Hc.
  destruct (Hcov r c ltac:(lia) ltac:(lia)) as (a & Ha & Hcell).
  match goal with
  | |- (if ?b then _ else _) = _ => assert (Hocc : b = true)
  end.
  { apply existsb_exists. exists (cellKey r c).
    split; [|apply String.eqb_refl].
    apply in_flat_map. exists a. split; [exact Ha|].
    apply in_map_iff. exists {| row := r; column := c |}.
    split; [reflexivity|]. apply In_getCellsInSpan. exact Hcell. }
  rewrite Hocc. reflexivity.
Qed.

(** ** First-fit search *)

Lemma covered_origin_overlaps (span : CellSpan) (r c rSpan cSpan : Z) :
  1 <= rSpan -> 1 <= cSpan -> covers span r c ->
  cellSpansOverlap (spanAt r c rSpan cSpan) span = true.
Proof.
  intros Hr Hc [Hrow Hcol].
  unfold cellSpansOverlap, spanAt; cbn [startRow startColumn rowSpan columnSpan].
  apply negb_true_iff.
  rewrite !Z.gtb_ltb, !orb_false_iff, !Z.ltb_ge. lia.
Qed.

Lemma validateCellSpan_valid_inv (span : CellSpan) (gridState : GridState)
    (excludeWindowId : option string) :
  valid (validateCellSpan span gridState excludeWindowId) = true ->
  isWithinGrid span (config gridState) = true
  /\ forall a, In a (assignments gridState) ->
       isExcluded excludeWindowId a = true
       \/ cellSpansOverlap span (cellSpan a) = false.
Proof.
  unfold validateCellSpan.
  destruct (isWithinGrid span (config gridState)); cbn [negb valid];
    [|discriminate].
  intros H. split; [reflexivity|].
  induction (assignments gridState) as [|a0 l IH]; [contradiction|].
  cbn [firstReturn] in H.
  destruct (isExcluded excludeWindowId a0) eqn:Hex.
  - intros a [<-|Ha]; [left; exact Hex|]. apply IH; assumption.
  - destruct (cellSpansOverlap span (cellSpan a0)) eqn:Hov;
      [cbn in H; discriminate|].
    intros a [<-|Ha]; [right; exact Hov|]. apply IH; assumption.
Qed.

(** C3 (as the code has it). [findAvailableSpan] scans the origins (r, c)
    with r in 0..rows-rowSpan (outer loop) and c in 0..columns-columnSpan
    (inner loop) and returns the span at the first origin that passes
    [validateCellSpan]: every origin before it in row-major order fails, and
    it returns nothing exactly when every origin fails.  When the request
    is taller or wider than the grid it returns nothing whatever the
    assignments are.  On a fully packed grid it returns nothing for every
    request of at least one row and one column. *)
Theorem findAvailableSpan_first_fit (rSpan cSpan : Z) (gridState : GridState) :
  let lastRow := rows (config gridState) - rSpan in
  let lastCol := columns (config gridState) - cSpan in
  (forall found,
      findAvailableSpan rSpan cSpan gridState = Some found ->
      exists r c,
        found = spanAt r c rSpan cSpan
        /\ 0 <= r <= lastRow /\ 0 <= c <= lastCol
        /\ fitsAt rSpan cSpan gridState r c = true
        /\ forall r' c',
             0 <= r' <= lastRow -> 0 <= c' <= lastCol ->
             r' < r \/ (r' = r /\ c' < c) ->
             fitsAt rSpan cSpan gridState r' c' = false)
  /\ (findAvailableSpan rSpan cSpan gridState = None ->
      forall r c, 0 <= r <= lastRow -> 0 <= c <= lastCol ->
                  fitsAt rSpan cSpan gridState r c = false)
  /\ (rSpan > rows (config gridState) \/ cSpan > columns (config gridState) ->
      forall others,
        findAvailableSpan rSpan cSpan (withAssignments gridState others) = None)
  /\ (1 <= rSpan -> 1 <= cSpan -> fullyPacked gridState ->
      findAvailableSpan rSpan cSpan gridState = None).
Proof.
  intros lastRow lastCol.
  set (inner := fun r =>
         firstReturn
           (fun c => if fitsAt rSpan cSpan gridState r c
                     then Some (spanAt r c rSpan cSpan) else None)
           (upTo lastCol)).
  assert (Hdef : findAvailableSpan rSpan cSpan gridState
                 = firstReturn inner (upTo lastRow)) by reflexivity.
  assert (Hinner : forall r,
             match inner r with
             | Some found =>
                 exists c, 0 <= c <= lastCol
                           /\ found = spanAt r c rSpan cSpan
                           /\ fitsAt rSpan cSpan gridState r c = true
                           /\ forall c', 0 <= c' < c ->
                                fitsAt rSpan cSpan gridState r c' = false
             | None => forall c, 0 <= c <= lastCol ->
                                 fitsAt rSpan cSpan gridState r c = false
             end).
  { intros r. unfold inner.
    match goal with |- context [firstReturn ?b (upTo lastCol)] =>
      pose proof (firstReturn_upTo b lastCol) as H;
      destruct (firstReturn b (upTo lastCol)) as [found|]
    end.
    - destruct H as (c & Hc & Hbody & Hfirst). exists c.
      destruct (fitsAt rSpan cSpan gridState r c) eqn:Hfit; [|discriminate].
      injection Hbody as <-.
      split; [exact Hc|]. split; [reflexivity|]. split; [reflexivity|].
      intros c' Hc'. specialize (Hfirst c' Hc').
      destruct (fitsAt rSpan cSpan gridState r c'); [discriminate|reflexivity].
    - intros c Hc. specialize (H c Hc).
      destruct (fitsAt rSpan cSpan gridState r c); [discriminate|reflexivity]. }
  pose proof (firstReturn_upTo inner lastRow) as Houter.
  rewrite <- Hdef in Houter.
  assert (Hnone : findAvailableSpan rSpan cSpan gridState = None ->
                  forall r c, 0 <= r <= lastRow -> 0 <= c <= lastCol ->
                              fitsAt rSpan cSpan gridState r c = false).
  { intros E r c Hr Hc. rewrite E in Houter.
    specialize (Houter r Hr). specialize (Hinner r). rewrite Houter in Hinner.
    apply Hinner. exact Hc. }
  split; [|split; [exact Hnone|split]].
  - intros found E. rewrite E in Houter.
    destruct Houter as (r & Hr & Hbody & Hfirst).
    pose proof (Hinner r) as Hrow. rewrite Hbody in Hrow.
    destruct Hrow as (c & Hc & -> & Hfit & Hleft).
    exists r, c. repeat (split; [assumption || reflexivity || lia|]).
    intros r' c' Hr' Hc' [Hlt|[-> Hlt]].
    + specialize (Hfirst r' ltac:(lia)). specialize (Hinner r').
      rewrite Hfirst in Hinner. apply Hinner. exact Hc'.
    + apply Hleft. lia.
  - intros Hbig others. unfold findAvailableSpan, upTo.
    cbn [config withAssignments].
    destruct Hbig as [Hbig|Hbig].
    + rewrite (countFrom_nil 0 (rows (config gridState) - rSpan + 1)) by lia.
      reflexivity.
    + rewrite (countFrom_nil 0 (columns (config gridState) - cSpan + 1)) by lia.
      apply firstReturn_all_none. reflexivity.
  - intros HrSpan HcSpan Hpacked.
    destruct (findAvailableSpan rSpan cSpan gridState) as [found|] eqn:E;
      [|reflexivity].
    exfalso.
    destruct Houter as (r & Hr & Hbody & _).
    pose proof (Hinner r) as Hrow. rewrite Hbody in Hrow.
    destruct Hrow as (c & Hc & _ & Hfit & _).
    unfold fitsAt in Hfit. apply validateCellSpan_valid_inv in Hfit.
    destruct Hfit as [_ Hfree].
    destruct (fullyPacked_covered gridState Hpacked r c) as (a & Ha & Hcov);
      [lia|lia|].
    destruct (Hfree a Ha) as [Hex|Hov]; [discriminate|].
    rewrite covered_origin_overlaps in Hov by assumption. discriminate.
Qed.

Lemma findAvailableSpan_first_fit_witness :
  fullyPacked packed3x3
  /\ findAvailableSpan 1 1 packed3x3 = None
  /\ findAvailableSpan 4 4 emptyGrid3x3 = None
  /\ fitsAt 1 1 twoWindows 0 1 = false.
Proof.
  destruct (findAvailableSpan_first_fit 1 1 packed3x3) as (_ & _ & _ & Hpacked).
  destruct (findAvailableSpan_first_fit 4 4 emptyGrid3x3) as (_ & _ & Hbig & _).
  destruct (findAvailableSpan_first_fit 1 1 twoWindows) as (Hsome & _ & _ & _).
  split; [reflexivity|].
  split; [apply Hpacked; [lia|lia|reflexivity]|].
  split; [apply (Hbig ltac:(left; vm_compute; reflexivity) [])|].
  destruct (Hsome (spanAt 0 2 1 1) eq_refl)
    as (r & c & E & _ & _ & _ & Hearlier).
  injection E as <- <-.
  apply Hearlier; cbn; lia.
Defined.

(** C3 (as stated) fails for a request without rows: on the 3x3 grid that
    one window covers entirely, no cell is free, yet the search for a span
    of zero rows and zero columns returns the empty span at the origin. *)
Lemma findAvailableSpan_packed_counterexample :
  fullyPacked packed3x3
  /\ findAvailableSpan 0 0 packed3x3 = Some (spanAt 0 0 0 0).
Proof. split; reflexivity. Qed.

(** ** Strings *)

Section Strings.

Implicit Types (s t u : string) (c : ascii).

Lemma append_nil_r s : (s ++ EmptyString)%string = s.
Proof. induction s as [|c s IH]; cbn; [reflexivity|]. rewrite IH. reflexivity. Qed.

Lemma append_assoc s t u : ((s ++ t) ++ u)%string = (s ++ (t ++ u))%string.
Proof. induction s as [|c s IH]; cbn; [reflexivity|]. rewrite IH. reflexivity. Qed.

Lemma length_append s t :
  String.length (s ++ t) = (String.length s + String.length t)%nat.
Proof. induction s as [|c s IH]; cbn; [reflexivity|]. rewrite IH. reflexivity. Qed.

Lemma substring_prefix s t : substring 0 (String.length s) (s ++ t) = s.
Proof.
  induction s as [|c s IH]; cbn.
  - destruct t; reflexivity.
  - rewrite IH. reflexivity.
Qed.

Lemma consumed_app s t : consumed (s ++ t) t = s.
Proof.
  unfold consumed. rewrite length_append.
  replace (String.length s + String.length t - String.length t)%nat
    with (String.length s) by lia.
  apply substring_prefix.
Qed.

Lemma toUpperCase_app s t :
  toUpperCase (s ++ t) = (toUpperCase s ++ toUpperCase t)%string.
Proof. induction s as [|c s IH]; cbn; [reflexivity|]. rewrite IH. reflexivity. Qed.

Lemma charCode_fromCharCode (n : Z) :
  0 <= n < 256 -> charCode (fromCharCode n) = n.
Proof.
  intros H. unfold charCode, fromCharCode.
  rewrite Z.mod_small by exact H.
  rewrite N_ascii_embedding by lia. lia.
Qed.

Lemma charCode_range c : 0 <= charCode c < 256.
Proof.
  unfold charCode. pose proof (N_ascii_bounded c). lia.
Qed.

Lemma upperChar_code c :
  charCode (upperChar c)
  = if isLower c then charCode c - 32 else charCode c.
Proof.
  unfold upperChar. destruct (isLower c) eqn:E; [|reflexivity].
  apply charCode_fromCharCode. unfold isLower in E. lia.
Qed.

Lemma upperChar_not_lower c : isLower (upperChar c) = false.
Proof.
  unfold isLower at 1. rewrite upperChar_code.
  destruct (isLower c) eqn:E; unfold isLower in E; lia.
Qed.

Lemma upperChar_fixed c : isLower c = false -> upperChar c = c.
Proof. unfold upperChar. intros ->. reflexivity. Qed.

Lemma toUpperCase_idem s : toUpperCase (toUpperCase s) = toUpperCase s.
Proof.
  induction s as [|c s IH]; cbn; [reflexivity|].
  rewrite IH, (upperChar_fixed (upperChar c)) by apply upperChar_not_lower.
  reflexivity.
Qed.

Lemma toUpperCase_fixed s :
  allChars (fun c => negb (isLower c)) s = true -> toUpperCase s = s.
Proof.
  induction s as [|c s IH]; cbn; [reflexivity|].
  intros H. apply andb_prop in H. destruct H as [Hc Hs].
  rewrite IH by exact Hs. rewrite upperChar_fixed; [reflexivity|].
  apply negb_true_iff. exact Hc.
Qed.

Lemma isUpper_not_lower c : isUpper c = true -> negb (isLower c) = true.
Proof. unfold isUpper, isLower. lia. Qed.

Lemma isDigit_not_lower c : isDigit c = true -> negb (isLower c) = true.
Proof. unfold isDigit, isLower. lia. Qed.

Lemma isUpper_not_digit c : isUpper c = true -> isDigit c = false.
Proof. unfold isUpper, isDigit. lia. Qed.

Lemma isDigit_not_upper c : isDigit c = true -> isUpper c = false.
Proof. unfold isUpper, isDigit. lia. Qed.

Lemma isUpper_not_space c : isUpper c = true -> isSpace c = false.
Proof. unfold isUpper, isSpace. lia. Qed.

Lemma isDigit_not_space c : isDigit c = true -> isSpace c = false.
Proof. unfold isDigit, isSpace. lia. Qed.

Lemma isSpace_upperChar c : isSpace (upperChar c) = isSpace c.
Proof.
  unfold isSpace. rewrite upperChar_code.
  destruct (isLower c) eqn:E; [|reflexivity].
  unfold isLower in E. lia.
Qed.

End Strings.

(** ** The matcher *)

Section Matcher.

Implicit Types (p : ascii -> bool) (s rest : string) (caps : captures).

Lemma star_stop {A : Type} p rest (k : string -> option A) :
  stopsAt p rest = true -> star p rest k = k rest.
Proof.
  destruct rest as [|c rest]; cbn; [reflexivity|].
  intros H. apply negb_true_iff in H. rewrite H. reflexivity.
Qed.

Lemma star_greedy {A : Type} p s rest (k : string -> option A) (a : A) :
  allChars p s = true -> stopsAt p rest = true -> k rest = Some a ->
  star p (s ++ rest) k = Some a.
Proof.
  intros Hs Hstop Hk. induction s as [|c s IH]; cbn.
  - rewrite star_stop by exact Hstop. exact Hk.
  - cbn in Hs. apply andb_prop in Hs. destruct Hs as [Hc Hs].
    rewrite Hc, (IH Hs). reflexivity.
Qed.

Lemma star_inv {A : Type} p s (k : string -> option A) (a : A) :
  star p s k = Some a ->
  exists s1 rest, s = (s1 ++ rest)%string /\ allChars p s1 = true
                  /\ k rest = Some a.
Proof.
  induction s as [|c s IH]; cbn.
  - intros H. exists EmptyString, EmptyString. repeat split; assumption.
  - destruct (p c) eqn:Hc.
    + destruct (star p s k) as [a'|] eqn:Hrec.
      * intros [= <-]. destruct (IH eq_refl) as (s1 & rest & -> & Hs1 & Hk).
        exists (String c s1), rest. cbn. rewrite Hc, Hs1.
        repeat split; assumption.
      * intros H. exists EmptyString, (String c s). repeat split; assumption.
    + intros H. exists EmptyString, (String c s). repeat split; assumption.
Qed.

Lemma run_cat (r1 r2 : regex) s caps k res :
  run r1 s caps (fun rest caps' => run r2 rest caps' k) = Some res ->
  run (Cat r1 r2) s caps k = Some res.
Proof. intros H. exact H. Qed.

Lemma run_cls p c rest caps k res :
  p c = true -> k rest caps = Some res ->
  run (Cls p) (String c rest) caps k = Some res.
Proof. intros Hc Hk. cbn. rewrite Hc. exact Hk. Qed.

Lemma run_opt_taken (r : regex) s caps k res :
  run r s caps k = Some res -> run (Opt r) s caps k = Some res.
Proof. intros H. cbn [run]. rewrite H. reflexivity. Qed.

Lemma run_group_plus p s rest caps k res :
  s <> EmptyString -> allChars p s = true -> stopsAt p rest = true ->
  k rest (caps ++ [Some s]) = Some res ->
  run (Group (Plus p)) (s ++ rest) caps k = Some res.
Proof.
  intros Hne Hs Hstop Hk.
  destruct s as [|c s]; [congruence|].
  cbn in Hs. apply andb_prop in Hs. destruct Hs as [Hc Hs].
  cbn [run append]. rewrite Hc.
  apply star_greedy; [exact Hs|exact Hstop|].
  change (String c (s ++ rest)) with (String c s ++ rest)%string.
  rewrite consumed_app. exact Hk.
Qed.

Lemma run_group_plus_end p s caps k res :
  s <> EmptyString -> allChars p s = true ->
  k EmptyString (caps ++ [Some s]) = Some res ->
  run (Group (Plus p)) s caps k = Some res.
Proof.
  intros Hne Hs Hk. rewrite <- (append_nil_r s) at 1.
  apply run_group_plus; [exact Hne|exact Hs|reflexivity|exact Hk].
Qed.

(** Whatever the matcher returns is a match in the sense of [matches]:
    the pattern matched a prefix of the text, and the continuation
    accepted what was left with the captures extended. *)
Lemma run_sound (r : regex) : forall s caps k res,
  run r s caps k = Some res ->
  exists s1 rest caps',
    s = (s1 ++ rest)%string /\ matches r s1 caps'
    /\ k rest (caps ++ caps') = Some res.
Proof.
  induction r as [p|p|p|r1 IH1 r2 IH2|r1 IH1|r1 IH1]; intros s caps k res H;
    cbn [run] in H.
  - destruct s as [|c s]; [discriminate|].
    destruct (p c) eqn:Hc; [|discriminate].
    exists (String c EmptyString), s, []. rewrite app_nil_r.
    split; [reflexivity|]. split; [constructor; exact Hc|exact H].
  - apply star_inv in H. destruct H as (s1 & rest & -> & Hs1 & Hk).
    exists s1, rest, []. rewrite app_nil_r.
    split; [reflexivity|]. split; [constructor; exact Hs1|exact Hk].
  - destruct s as [|c s]; [discriminate|].
    destruct (p c) eqn:Hc; [|discriminate].
    apply star_inv in H. destruct H as (s1 & rest & -> & Hs1 & Hk).
    exists (String c s1), rest, []. rewrite app_nil_r.
    split; [reflexivity|]. split; [|exact Hk].
    constructor; [discriminate|]. cbn. rewrite Hc, Hs1. reflexivity.
  - apply IH1 in H. destruct H as (s1 & rest1 & caps1 & -> & M1 & H).
    apply IH2 in H. destruct H as (s2 & rest2 & caps2 & -> & M2 & H).
    exists (s1 ++ s2)%string, rest2, (caps1 ++ caps2).
    rewrite append_assoc, app_assoc.
    split; [reflexivity|]. split; [constructor; assumption|exact H].
  - apply IH1 in H. destruct H as (s1 & rest & caps1 & -> & M1 & H).
    rewrite consumed_app in H.
    exists s1, rest, (caps1 ++ [Some s1]). rewrite app_assoc.
    split; [reflexivity|]. split; [constructor; exact M1|exact H].
  - destruct (run r1 s caps k) as [res'|] eqn:Htaken.
    + injection H as <-. apply IH1 in Htaken.
      destruct Htaken as (s1 & rest & caps1 & -> & M1 & Hk).
      exists s1, rest, caps1.
      split; [reflexivity|]. split; [apply M_Opt_taken; exact M1|exact Hk].
    + exists EmptyString, s, (repeat None (groupCount r1)).
      split; [reflexivity|]. split; [apply M_Opt_skipped|exact H].
Qed.

Lemma matchAnchored_sound (r : regex) s res :
  matchAnchored r s = Some res -> matches r s res.
Proof.
  unfold matchAnchored. intros H. apply run_sound in H.
  destruct H as (s1 & rest & caps' & -> & M & Hk).
  destruct rest; [|discriminate]. injection Hk as <-.
  rewrite append_nil_r. exact M.
Qed.

Lemma matches_group_plus p s caps :
  matches (Group (Plus p)) s caps ->
  caps = [Some s] /\ s <> EmptyString /\ allChars p s = true.
Proof.
  intros H. inversion H as [| | | |r' s' caps' M| |]; subst.
  inversion M; subst. repeat split; assumption.
Qed.

End Matcher.

(** ** Spreadsheet notation *)

Section Notation.

Lemma columnValue_app (acc : Z) (s t : string) :
  columnValue acc (s ++ t) = columnValue (columnValue acc s) t.
Proof.
  revert acc. induction s as [|c s IH]; intros acc; cbn; [reflexivity|].
  apply IH.
Qed.

Lemma letter_code (c : Z) :
  0 <= c ->
  charCode (fromCharCode (65 + Z.rem c 26)) = 65 + c mod 26
  /\ isUpper (fromCharCode (65 + Z.rem c 26)) = true.
Proof.
  intros Hc. rewrite Z.rem_mod_nonneg by lia.
  pose proof (Z.mod_pos_bound c 26 ltac:(lia)) as Hm.
  assert (E : charCode (fromCharCode (65 + c mod 26)) = 65 + c mod 26)
    by (apply charCode_fromCharCode; lia).
  split; [exact E|]. unfold isUpper. rewrite E. lia.
Qed.

(** The loop stops by itself within [Z.to_nat c] re-entries: more fuel
    does not change its result. *)
Lemma columnLetters_fuel (fuel fuel' : nat) (c : Z) (acc : string) :
  (Z.to_nat c <= fuel)%nat -> (Z.to_nat c <= fuel')%nat ->
  columnLetters fuel c acc = columnLetters fuel' c acc.
Proof.
  revert fuel' c acc.
  induction fuel as [|fuel IH]; intros [|fuel'] c acc H H';
    cbn [columnLetters]; try reflexivity.
  - destruct (Z.geb_spec (c / 26 - 1) 0) as [Hge|_]; [|reflexivity].
    exfalso. assert (c <= 0) by lia.
    pose proof (Z.div_le_upper_bound c 26 0 ltac:(lia) ltac:(lia)). lia.
  - destruct (Z.geb_spec (c / 26 - 1) 0) as [Hge|_]; [|reflexivity].
    exfalso. assert (c <= 0) by lia.
    pose proof (Z.div_le_upper_bound c 26 0 ltac:(lia) ltac:(lia)). lia.
  - destruct (Z.geb_spec (c / 26 - 1) 0) as [Hge|_]; [|reflexivity].
    assert (Hc : 26 <= c).
    { destruct (Z_lt_le_dec c 26) as [Hlt|Hle]; [|exact Hle].
      pose proof (Z.div_lt_upper_bound c 26 1 ltac:(lia) ltac:(lia)). lia. }
    pose proof (Z.div_le_upper_bound c 26 c ltac:(lia) ltac:(lia)).
    apply IH; lia.
Qed.

(** The letters produced for a column are capitals, and reading them back
    gives the column number plus one. *)
Lemma columnLetters_spec (fuel : nat) : forall (c : Z) (acc : string),
  0 <= c -> (Z.to_nat c <= fuel)%nat ->
  exists letters,
    columnLetters fuel c acc = (letters ++ acc)%string
    /\ letters <> EmptyString
    /\ allChars isUpper letters = true
    /\ columnValue 0 letters = c + 1.
Proof.
  induction fuel as [|fuel IH]; intros c acc Hc Hfuel; cbn [columnLetters];
    destruct (letter_code c Hc) as [Hcode Hup];
    set (ch := fromCharCode (65 + Z.rem c 26)) in *.
  - exists (String ch EmptyString). cbn. rewrite Hup, Hcode.
    assert (c = 0) by lia. subst c.
    repeat split; try reflexivity. discriminate.
  - destruct (Z.geb_spec (c / 26 - 1) 0) as [Hge|Hlt].
    + pose proof (Z.div_le_upper_bound c 26 c ltac:(lia) ltac:(lia)).
      destruct (IH (c / 26 - 1) (String ch acc) ltac:(lia) ltac:(lia))
        as (letters & E & Hne & Hall & Hval).
      exists (letters ++ String ch EmptyString)%string.
      rewrite E, append_assoc. cbn [append].
      split; [reflexivity|].
      split; [destruct letters; cbn; discriminate|].
      split.
      * rewrite allChars_app, Hall. cbn. rewrite Hup. reflexivity.
      * rewrite columnValue_app, Hval. cbn. rewrite Hcode.
        pose proof (Z.div_mod c 26 ltac:(lia)). lia.
    + exists (String ch EmptyString). cbn. rewrite Hup, Hcode.
      assert (c < 26).
      { destruct (Z_lt_le_dec c 26) as [H|H]; [exact H|].
        pose proof (Z.div_le_lower_bound c 26 1 ltac:(lia) ltac:(lia)). lia. }
      rewrite Z.mod_small by lia.
      repeat split; try reflexivity; try lia. discriminate.
Qed.

Lemma cellPattern_match (letters digits : string) :
  letters <> EmptyString -> allChars isUpper letters = true ->
  digits <> EmptyString -> allChars isDigit digits = true ->
  matchAnchored cellPattern (letters ++ digits)
  = Some [Some letters; Some digits].
Proof.
  intros HL HLall HD HDall. unfold matchAnchored, cellPattern.
  apply run_cat, run_group_plus; [exact HL|exact HLall| |].
  - destruct digits as [|d digits]; [congruence|]. cbn in *.
    apply andb_prop in HDall. destruct HDall as [Hd _].
    rewrite (isDigit_not_upper d Hd). reflexivity.
  - apply run_group_plus_end; [exact HD|exact HDall|reflexivity].
Qed.

Lemma cellPattern_inv (s : string) (res : captures) :
  matchAnchored cellPattern s = Some res ->
  exists letters digits,
    s = (letters ++ digits)%string /\ res = [Some letters; Some digits]
    /\ letters <> EmptyString /\ allChars isUpper letters = true
    /\ digits <> EmptyString /\ allChars isDigit digits = true.
Proof.
  intros H. apply matchAnchored_sound in H. unfold cellPattern in H.
  inversion H as [| | |r1 r2 s1 s2 caps1 caps2 M1 M2| | |]; subst.
  apply matches_group_plus in M1, M2.
  destruct M1 as (-> & HL & HLall). destruct M2 as (-> & HD & HDall).
  exists s1, s2. repeat split; assumption.
Qed.

Lemma upper_digits_fixed (letters digits : string) :
  allChars isUpper letters = true -> allChars isDigit digits = true ->
  toUpperCase (letters ++ digits) = (letters ++ digits)%string.
Proof.
  intros HL HD. apply toUpperCase_fixed. rewrite allChars_app.
  rewrite (allChars_weaken isUpper _ letters isUpper_not_lower HL).
  rewrite (allChars_weaken isDigit _ digits isDigit_not_lower HD).
  reflexivity.
Qed.

(** An integer of at most 53 bits, and 2^53 itself, is a binary64 value:
    rounding leaves it as it is. *)
Lemma roundDouble_exact (n : Z) :
  0 <= n <= MAX_SAFE_INTEGER + 1 -> roundDouble n = n.
Proof.
  unfold MAX_SAFE_INTEGER. intros Hn.
  destruct (Z.eq_dec n (2 ^ 53)) as [->|Hne]; [reflexivity|].
  unfold roundDouble. rewrite Z.abs_eq by lia.
  destruct (Z.eq_dec n 0) as [->|Hpos]; [reflexivity|].
  assert (Hlog : Z.log2 n < 53) by (apply Z.log2_lt_pow2; lia).
  destruct (Z.leb_spec (Z.log2 n - 52) 0); [reflexivity|lia].
Qed.

End Notation.

(** C1. Reading back the notation of a cell gives the cell: for every row
    and column from 0 up to the last safe integer, 2^53 - 1,
    [excelNotationToCell (cellToExcelNotation r c)] is the address
    (r, c). *)
Theorem excelNotation_round_trip (r c : Z) :
  0 <= r <= MAX_SAFE_INTEGER -> 0 <= c <= MAX_SAFE_INTEGER ->
  excelNotationToCell (cellToExcelNotation r c)
  = Some {| row := r; column := c |}.
Proof.
  intros Hr [Hc _]. unfold cellToExcelNotation.
  rewrite roundDouble_exact by lia.
  destruct (columnLetters_spec (Z.to_nat c) c EmptyString Hc (Nat.le_refl _))
    as (letters & E & HL & HLall & Hval).
  rewrite E, append_nil_r.
  destruct (toString_digits (r + 1) ltac:(lia)) as [HDall HD].
  unfold excelNotationToCell.
  rewrite upper_digits_fixed by assumption.
  rewrite cellPattern_match by assumption.
  rewrite Hval, parseInt10_toString by lia.
  replace (r + 1 - 1) with r by lia. replace (c + 1 - 1) with c by lia.
  destruct (Z.ltb_spec r 0); [lia|]. destruct (Z.ltb_spec c 0); [lia|].
  reflexivity.
Qed.

Lemma excelNotation_round_trip_witness :
  cellToExcelNotation 99 702 = "AAA100"
  /\ excelNotationToCell (cellToExcelNotation 99 702)
     = Some {| row := 99; column := 702 |}
  /\ excelNotationToCell (cellToExcelNotation (2 ^ 53 - 1) 0)
     = Some {| row := 2 ^ 53 - 1; column := 0 |}.
Proof.
  split; [reflexivity|]. split.
  - apply (excelNotation_round_trip 99 702); unfold MAX_SAFE_INTEGER; lia.
  - apply (excelNotation_round_trip (2 ^ 53 - 1) 0);
      unfold MAX_SAFE_INTEGER; lia.
Defined.

(** C1 (as stated) fails at row 2^53: there [row + 1] is not a binary64
    value and rounds to 2^53, the notation is that of the row before,
    and the row before is what is read back. *)
Lemma excelNotation_round_trip_counterexample :
  cellToExcelNotation (2 ^ 53) 0 = "A9007199254740992"
  /\ cellToExcelNotation (2 ^ 53 - 1) 0 = "A9007199254740992"
  /\ excelNotationToCell (cellToExcelNotation (2 ^ 53) 0)
     = Some {| row := 2 ^ 53 - 1; column := 0 |}
  /\ ~ (forall r c : Z,
          0 <= r -> 0 <= c ->
          excelNotationToCell (cellToExcelNotation r c)
          = Some {| row := r; column := c |}).
Proof.
  split; [reflexivity|]. split; [reflexivity|]. split; [reflexivity|].
  intros H. specialize (H (2 ^ 53) 0 ltac:(lia) ltac:(lia)).
  vm_compute in H. discriminate H.
Qed.

(** ** Trimming *)

Section Trimming.

Implicit Types (s t : string) (c : ascii).

Lemma trimStart_toUpperCase s :
  toUpperCase (trimStart s) = trimStart (toUpperCase s).
Proof.
  induction s as [|c s IH]; cbn; [reflexivity|].
  rewrite isSpace_upperChar. destruct (isSpace c); [exact IH|reflexivity].
Qed.

Lemma trimEnd_toUpperCase s :
  toUpperCase (trimEnd s) = trimEnd (toUpperCase s).
Proof.
  induction s as [|c s IH]; cbn; [reflexivity|].
  rewrite <- IH, isSpace_upperChar.
  destruct (trimEnd s); cbn; [destruct (isSpace c)|]; reflexivity.
Qed.

Lemma trim_toUpperCase s : toUpperCase (trim s) = trim (toUpperCase s).
Proof.
  unfold trim. rewrite trimEnd_toUpperCase, trimStart_toUpperCase.
  reflexivity.
Qed.

Lemma trimEnd_notSpace t : allChars notSpace t = true -> trimEnd t = t.
Proof.
  induction t as [|c t IH]; cbn; [reflexivity|].
  intros H. apply andb_prop in H. destruct H as [Hc Ht].
  rewrite (IH Ht). apply negb_true_iff in Hc. rewrite Hc.
  destruct t; reflexivity.
Qed.

Lemma trimEnd_app_keep s t :
  t <> EmptyString -> allChars notSpace t = true ->
  trimEnd (s ++ t) = (s ++ t)%string.
Proof.
  intros Hne Ht. induction s as [|c s IH]; cbn.
  - apply trimEnd_notSpace. exact Ht.
  - rewrite IH. destruct (s ++ t)%string eqn:E; [|reflexivity].
    destruct s; cbn in E; [congruence|discriminate].
Qed.

End Trimming.

(** ** Parsing cell specifications *)

Ltac invert_matches :=
  repeat match goal with
    | H : matches (Cat _ _) _ _ |- _ => inversion H; clear H; subst
    | H : matches (Group (Plus _)) _ _ |- _ =>
        apply matches_group_plus in H; destruct H as (-> & ? & ?)
    | H : matches (Cls _) _ _ |- _ => inversion H; clear H; subst
    | H : matches (Star _) _ _ |- _ => inversion H; clear H; subst
    | H : matches (Opt _) _ _ |- _ => inversion H; clear H; subst
    end.

Section Parsing.

(** The destructuring of a match always finds a text of digits in groups
    1 and 2 (of capitals in group 1 of a range), and groups 3 and 4 are
    undefined or such texts: [parseInt] is only applied to digits. *)
Lemma coordPattern_shape (s : string) (res : captures) :
  matchAnchored coordPattern s = Some res ->
  exists rowStr colStr rowSpanStr colSpanStr,
    res = [Some rowStr; Some colStr; rowSpanStr; colSpanStr]
    /\ textOf isDigit rowStr /\ textOf isDigit colStr
    /\ optTextOf isDigit rowSpanStr /\ optTextOf isDigit colSpanStr.
Proof.
  intros H. apply matchAnchored_sound in H.
  unfold coordPattern in H. cbn [catAll] in H.
  invert_matches; cbn; do 4 eexists; (split; [reflexivity|]);
    unfold optTextOf, textOf; auto 10.
Qed.

Lemma rangePattern_shape (s : string) (res : captures) :
  matchAnchored rangePattern s = Some res ->
  exists startColStr startRowStr endColStr endRowStr,
    res = [Some startColStr; Some startRowStr; endColStr; endRowStr]
    /\ textOf isUpper startColStr /\ textOf isDigit startRowStr
    /\ optTextOf isUpper endColStr /\ optTextOf isDigit endRowStr.
Proof.
  intros H. apply matchAnchored_sound in H.
  unfold rangePattern in H. cbn [catAll] in H.
  invert_matches; cbn; do 4 eexists; (split; [reflexivity|]);
    unfold optTextOf, textOf; auto 10.
Qed.

Lemma coordPattern_needs_digit (c : ascii) (s : string) :
  isDigit c = false -> matchAnchored coordPattern (String c s) = None.
Proof. intros H. cbn. rewrite H. reflexivity. Qed.

Lemma rangePattern_match (letters1 digits1 letters2 digits2 : string) :
  letters1 <> EmptyString -> allChars isUpper letters1 = true ->
  digits1 <> EmptyString -> allChars isDigit digits1 = true ->
  letters2 <> EmptyString -> allChars isUpper letters2 = true ->
  digits2 <> EmptyString -> allChars isDigit digits2 = true ->
  matchAnchored rangePattern
    (letters1 ++ digits1 ++ String ":" (letters2 ++ digits2))
  = Some [Some letters1; Some digits1; Some letters2; Some digits2].
Proof.
  intros HL1 HL1all HD1 HD1all HL2 HL2all HD2 HD2all.
  unfold matchAnchored, rangePattern. cbn [catAll].
  apply run_cat, run_group_plus; [exact HL1|exact HL1all| |].
  { destruct digits1 as [|d digits1]; [congruence|]. cbn in *.
    apply andb_prop in HD1all. destruct HD1all as [Hd _].
    rewrite (isDigit_not_upper d Hd). reflexivity. }
  apply run_cat, run_group_plus; [exact HD1|exact HD1all|reflexivity|].
  apply run_opt_taken, run_cat, run_cls; [reflexivity|].
  apply run_cat, run_group_plus; [exact HL2|exact HL2all| |].
  { destruct digits2 as [|d digits2]; [congruence|]. cbn in *.
    apply andb_prop in HD2all. destruct HD2all as [Hd _].
    rewrite (isDigit_not_upper d Hd). reflexivity. }
  apply run_group_plus_end; [exact HD2|exact HD2all|reflexivity].
Qed.

Lemma excelNotationToCell_upper (s : string) :
  excelNotationToCell (toUpperCase s) = excelNotationToCell s.
Proof. unfold excelNotationToCell. rewrite toUpperCase_idem. reflexivity. Qed.

Lemma excelNotationToCell_inv (s : string) (cell : CellAddress) :
  excelNotationToCell s = Some cell ->
  exists letters digits,
    toUpperCase s = (letters ++ digits)%string
    /\ letters <> EmptyString /\ allChars isUpper letters = true
    /\ digits <> EmptyString /\ allChars isDigit digits = true.
Proof.
  unfold excelNotationToCell. intros H.
  destruct (matchAnchored cellPattern (toUpperCase s)) as [res|] eqn:M;
    [|discriminate].
  apply cellPattern_inv in M.
  destruct M as (letters & digits & E & _ & HL & HLall & HD & HDall).
  exists letters, digits. repeat split; assumption.
Qed.

(** A range of two valid cells parses to the span between them. *)
Lemma parseCellSpec_range (X Y : string) (cx cy : CellAddress) :
  excelNotationToCell X = Some cx -> excelNotationToCell Y = Some cy ->
  parseCellSpec (X ++ ":" ++ Y)
  = parseOk
      {| startRow := Z.min (row cx) (row cy);
         startColumn := Z.min (column cx) (column cy);
         rowSpan := Z.max (row cx) (row cy) - Z.min (row cx) (row cy) + 1;
         columnSpan :=
           Z.max (column cx) (column cy) - Z.min (column cx) (column cy) + 1 |}.
Proof.
  intros HX HY.
  destruct (excelNotationToCell_inv X cx HX)
    as (l1 & d1 & EX & HL1 & HL1all & HD1 & HD1all).
  destruct (excelNotationToCell_inv Y cy HY)
    as (l2 & d2 & EY & HL2 & HL2all & HD2 & HD2all).
  unfold parseCellSpec.
  rewrite trim_toUpperCase, toUpperCase_app. cbn [append toUpperCase].
  change (upperChar ":") with ":"%char.
  rewrite EX, EY.
  assert (Etrim : trim ((l1 ++ d1) ++ String ":" (l2 ++ d2))
                  = (l1 ++ d1 ++ String ":" (l2 ++ d2))%string).
  { unfold trim. rewrite append_assoc.
    destruct l1 as [|c l1]; [congruence|].
    cbn in HL1all. apply andb_prop in HL1all. destruct HL1all as [Hc _].
    cbn [append trimStart]. rewrite (isUpper_not_space c Hc).
    replace (String c (l1 ++ d1 ++ String ":" (l2 ++ d2)))
      with ((String c l1 ++ d1 ++ String ":" l2) ++ d2)%string.
    - apply trimEnd_app_keep; [exact HD2|].
      apply (allChars_weaken isDigit); [|exact HD2all].
      intros a Ha. unfold notSpace. rewrite (isDigit_not_space a Ha).
      reflexivity.
    - rewrite !append_assoc. reflexivity. }
  rewrite Etrim.
  assert (Ecoord : matchAnchored coordPattern
                     (l1 ++ d1 ++ String ":" (l2 ++ d2)) = None).
  { destruct l1 as [|c l1]; [congruence|].
    cbn in HL1all. apply andb_prop in HL1all. destruct HL1all as [Hc _].
    apply coordPattern_needs_digit, isUpper_not_digit. exact Hc. }
  rewrite Ecoord, rangePattern_match by assumption.
  unfold parseExcelMatch.
  rewrite <- EX, excelNotationToCell_upper, HX.
  rewrite <- EY, excelNotationToCell_upper, HY.
  unfold truthy.
  destruct (String.eqb_spec l2 EmptyString) as [E|_]; [congruence|].
  destruct (String.eqb_spec d2 EmptyString) as [E|_]; [congruence|].
  reflexivity.
Qed.

End Parsing.

(** C4. A spreadsheet range is normalized: for any two valid cells X and Y
    the range "X:Y" parses to the span that starts at the smaller row and
    the smaller column of the two and reaches the larger ones, so "X:Y"
    and "Y:X" parse to the same result; "B2:A1" parses to the 2x2 span at
    row 0, column 0. *)
Theorem parseCellSpec_range_top_left (X Y : string) (cx cy : CellAddress) :
  excelNotationToCell X = Some cx -> excelNotationToCell Y = Some cy ->
  (exists span,
      parseCellSpec (X ++ ":" ++ Y) = parseOk span
      /\ startRow span = Z.min (row cx) (row cy)
      /\ startColumn span = Z.min (column cx) (column cy)
      /\ rowSpan span = Z.abs (row cx - row cy) + 1
      /\ columnSpan span = Z.abs (column cx - column cy) + 1)
  /\ parseCellSpec (X ++ ":" ++ Y) = parseCellSpec (Y ++ ":" ++ X)
  /\ parseCellSpec "B2:A1"
     = parseOk {| startRow := 0; startColumn := 0; rowSpan := 2; columnSpan := 2 |}.
Proof.
  intros HX HY.
  split; [|split; [|reflexivity]].
  - eexists. split; [apply (parseCellSpec_range X Y cx cy HX HY)|].
    cbn [startRow startColumn rowSpan columnSpan].
    repeat split; lia.
  - rewrite (parseCellSpec_range X Y cx cy HX HY).
    rewrite (parseCellSpec_range Y X cy cx HY HX).
    rewrite (Z.min_comm (row cy)), (Z.max_comm (row cy)).
    rewrite (Z.min_comm (column cy)), (Z.max_comm (column cy)).
    reflexivity.
Qed.

Lemma parseCellSpec_range_top_left_witness :
  excelNotationToCell "c3" = Some {| row := 2; column := 2 |}
  /\ excelNotationToCell "A2" = Some {| row := 1; column := 0 |}
  /\ parseCellSpec "c3:A2" = parseCellSpec "A2:c3".
Proof.
  split; [reflexivity|]. split; [reflexivity|].
  apply (parseCellSpec_range_top_left "c3" "A2"
           {| row := 2; column := 2 |} {| row := 1; column := 0 |});
    reflexivity.
Defined.

(** C5. [parseCellSpec] returns a tagged result for every input: either a
    success with a span and no error, or a failure with no span and one of
    its three messages, none of them empty; the model has no [Throw] on
    this path because the source has none.  The inputs "0,0:0x1", the empty
    string, "A" and "1" are failures. *)
Theorem parseCellSpec_tagged_result :
  (forall spec,
      wellTagged (parseCellSpec spec)
      /\ (success (parseCellSpec spec) = true
          <-> exists span, parsedSpan (parseCellSpec spec) = Some span)
      /\ (success (parseCellSpec spec) = false
          <-> exists msg, parseError (parseCellSpec spec) = Some msg)
      /\ forall msg,
           parseError (parseCellSpec spec) = Some msg ->
           msg = "Span dimensions must be at least 1"
           \/ (exists cell, msg = ("Invalid cell notation: " ++ cell)%string)
           \/ msg = ("Invalid cell specification: " ++ spec)%string)
  /\ parseCellSpec "0,0:0x1" = parseFail "Span dimensions must be at least 1"
  /\ parseCellSpec EmptyString = parseFail "Invalid cell specification: "
  /\ parseCellSpec "A" = parseFail "Invalid cell specification: A"
  /\ parseCellSpec "1" = parseFail "Invalid cell specification: 1".
Proof.
  split; [|repeat split; reflexivity].
  intros spec.
  assert (Hcases :
    (exists span, parseCellSpec spec = parseOk span)
    \/ parseCellSpec spec = parseFail "Span dimensions must be at least 1"
    \/ (exists cell, parseCellSpec spec
                     = parseFail ("Invalid cell notation: " ++ cell)%string)
    \/ parseCellSpec spec
       = parseFail ("Invalid cell specification: " ++ spec)%string).
  { unfold parseCellSpec, parseExcelMatch.
    repeat match goal with
      | |- context [match ?scrutinee with _ => _ end] =>
          destruct scrutinee
      end;
      eauto 6. }
  destruct Hcases as [(span & ->)|[->|[(cell & ->)| ->]]]; cbn.
  - split; [left; eauto|].
    split; [split; eauto|].
    split; [split; [discriminate|intros (msg & H); discriminate]|].
    intros msg H. discriminate.
  - split; [right; eexists; split; [reflexivity|discriminate]|].
    split; [split; [discriminate|intros (span & H); discriminate]|].
    split; [split; eauto|].
    intros msg [= <-]. left. reflexivity.
  - split; [right; eexists; split; [reflexivity|discriminate]|].
    split; [split; [discriminate|intros (span & H); discriminate]|].
    split; [split; eauto|].
    intros msg [= <-]. right. left. exists cell. reflexivity.
  - split; [right; eexists; split; [reflexivity|discriminate]|].
    split; [split; [discriminate|intros (span & H); discriminate]|].
    split; [split; eauto|].
    intros msg [= <-]. right. right. reflexivity.
Qed.

(* ================================================================== *)
(** * Part III: further properties of the grid engine *)
(* ================================================================== *)

(** ** Span primitives *)

Lemma NoDup_map_injective {A B : Type} (f : A -> B) (l : list A) :
  (forall a a', f a = f a' -> a = a') -> NoDup l -> NoDup (map f l).
Proof.
  intros Hinj. induction l as [|a l IH]; cbn; intros Hl; [constructor|].
  apply NoDup_cons_iff in Hl. destruct Hl as [Hnotin Hl].
  constructor; [|apply IH; exact Hl].
  intros H. apply in_map_iff in H. destruct H as (a' & E & Ha').
  apply Hinj in E. subst a'. contradiction.
Qed.

Lemma NoDup_countFrom (lo n : Z) : NoDup (countFrom lo n).
Proof.
  unfold countFrom. apply NoDup_map_injective; [|apply seq_NoDup].
  intros i j H. lia.
Qed.

Lemma length_countFrom (lo n : Z) : List.length (countFrom lo n) = Z.to_nat n.
Proof. unfold countFrom. rewrite length_map, length_seq. reflexivity. Qed.

Lemma NoDup_flat_map {A B : Type} (f : A -> list B) (l : list A) :
  NoDup l -> (forall a, In a l -> NoDup (f a)) ->
  (forall a a' b, In a l -> In a' l -> In b (f a) -> In b (f a') -> a = a') ->
  NoDup (flat_map f l).
Proof.
  induction l as [|a0 l IH]; cbn; intros Hl Hf Hinj; [constructor|].
  apply NoDup_cons_iff in Hl. destruct Hl as [Hnotin Hl].
  apply NoDup_app.
  - apply Hf. left. reflexivity.
  - apply IH; [exact Hl|intros a Ha; apply Hf; right; exact Ha|].
    intros a a' b Ha Ha'. apply Hinj; right; assumption.
  - intros b Hb Hb'. apply in_flat_map in Hb'. destruct Hb' as (a & Ha & Hb').
    apply Hnotin.
    rewrite (Hinj a0 a b); [exact Ha|left; reflexivity|right; exact Ha| |];
      assumption.
Qed.

Lemma cellSpansOverlap_true_iff (a b : CellSpan) :
  cellSpansOverlap a b = true
  <-> startRow b <= startRow a + rowSpan a - 1
      /\ startRow a <= startRow b + rowSpan b - 1
      /\ startColumn b <= startColumn a + columnSpan a - 1
      /\ startColumn a <= startColumn b + columnSpan b - 1.
Proof.
  unfold cellSpansOverlap.
  rewrite negb_true_iff, !Z.gtb_ltb, !orb_false_iff, !Z.ltb_ge.
  tauto.
Qed.

Lemma cellSpansOverlap_sym (a b : CellSpan) :
  cellSpansOverlap a b = cellSpansOverlap b a.
Proof.
  destruct (cellSpansOverlap a b) eqn:Hab; destruct (cellSpansOverlap b a) eqn:Hba;
    try reflexivity; exfalso.
  - apply cellSpansOverlap_true_iff in Hab.
    apply not_true_iff_false in Hba. apply Hba.
    apply cellSpansOverlap_true_iff. tauto.
  - apply cellSpansOverlap_true_iff in Hba.
    apply not_true_iff_false in Hab. apply Hab.
    apply cellSpansOverlap_true_iff. tauto.
Qed.

Lemma isWithinGrid_true_iff (span : CellSpan) (cfg : GridConfig) :
  isWithinGrid span cfg = true
  <-> 0 <= startRow span /\ 0 <= startColumn span
      /\ startRow span + rowSpan span <= rows cfg
      /\ startColumn span + columnSpan span <= columns cfg.
Proof.
  unfold isWithinGrid.
  rewrite !andb_true_iff, !Z.geb_le, !Z.leb_le. tauto.
Qed.








(** ** Cells in pixel space *)

Lemma firstReturn_some_in {A B : Type} (body : A -> option B) (l : list A) (b : B) :
  firstReturn body l = Some b -> exists a, In a l /\ body a = Some b.
Proof.
  induction l as [|a0 l IH]; cbn; [discriminate|].
  destruct (body a0) as [b0|] eqn:E.
  - intros [= <-]. exists a0. split; [left; reflexivity|exact E].
  - intros H. destruct (IH H) as (a & Ha & Hb). exists a.
    split; [right; exact Ha|exact Hb].
Qed.


Lemma In_cells (cfg : GridConfig) (monitor : MonitorInfo) (e : CellEntry) :
  In e (cells (calculateAllCells cfg monitor))
  <-> inGrid cfg (entryRow e) (entryColumn e)
      /\ rect e
         = calculateCellRect (singleCell (entryRow e) (entryColumn e)) cfg monitor.
Proof.
  unfold calculateAllCells; cbn [cells]. rewrite in_flat_map. split.
  - intros (r & Hr & He). apply in_map_iff in He. destruct He as (c & <- & Hc).
    apply In_countFrom in Hr, Hc. cbn. unfold inGrid.
    split; [lia|reflexivity].
  - intros [[Hr Hc] Hrect]. exists (entryRow e).
    split; [apply In_countFrom; lia|].
    apply in_map_iff. exists (entryColumn e).
    split; [|apply In_countFrom; lia].
    destruct e as [r c rc]. cbn in *. rewrite Hrect. reflexivity.
Qed.






(** X6. [calculateAllCells] holds one entry per cell of the grid, rows *
    columns in all: an entry is listed exactly when its cell is in the grid
    and its rectangle is the one [calculateCellRect] gives to that single
    cell, and every listed rectangle has the reported cell width and
    height. *)
Theorem calculateAllCells_enumerates (cfg : GridConfig) (monitor : MonitorInfo) :
  let dims := calculateAllCells cfg monitor in
  List.length (cells dims) = (Z.to_nat (rows cfg) * Z.to_nat (columns cfg))%nat
  /\ (forall e,
        In e (cells dims)
        <-> inGrid cfg (entryRow e) (entryColumn e)
            /\ rect e
               = calculateCellRect (singleCell (entryRow e) (entryColumn e))
                   cfg monitor)
  /\ (forall e, In e (cells dims) ->
        width (rect e) = dimCellWidth dims
        /\ height (rect e) = dimCellHeight dims)
  /\ dimCellWidth dims = cellWidth (calculateSingleCellSize cfg monitor)
  /\ dimCellHeight dims = cellHeight (calculateSingleCellSize cfg monitor).
Proof.
  intros dims. split; [|split; [|split; [|split; reflexivity]]].
  - unfold dims, calculateAllCells; cbn [cells].
    rewrite flat_map_constant_length with (c := Z.to_nat (columns cfg)).
    + rewrite length_countFrom. reflexivity.
    + intros r _. rewrite length_map. apply length_countFrom.
  - intros e. apply In_cells.
  - intros e He. apply In_cells in He. destruct He as [_ ->].
    unfold dims, calculateAllCells, calculateSingleCellSize, calculateCellRect,
      singleCell.
    cbn [width height dimCellWidth dimCellHeight cellWidth cellHeight
         rowSpan columnSpan].
    split; ring.
Qed.













(** ** Formatting and parsing *)

Lemma run_star_skip (p : ascii -> bool) (s : string) (caps : captures)
    (k : string -> captures -> option captures) (res : captures) :
  stopsAt p s = true -> k s caps = Some res ->
  run (Star p) s caps k = Some res.
Proof.
  intros Hstop Hk. cbn [run]. rewrite star_stop by exact Hstop. exact Hk.
Qed.

Lemma notation_read_back (r c : Z) :
  0 <= r <= MAX_SAFE_INTEGER -> 0 <= c <= MAX_SAFE_INTEGER ->
  excelNotationToCell (cellToExcelNotation r c)
  = Some {| row := r; column := c |}.
Proof.
  intros Hr [Hc _]. unfold cellToExcelNotation.
  rewrite roundDouble_exact by lia.
  destruct (columnLetters_spec (Z.to_nat c) c EmptyString Hc (Nat.le_refl _))
    as (letters & E & HL & HLall & Hval).
  rewrite E, append_nil_r.
  destruct (toString_digits (r + 1) ltac:(lia)) as [HDall HD].
  unfold excelNotationToCell.
  rewrite upper_digits_fixed, cellPattern_match by assumption.
  rewrite Hval, parseInt10_toString by lia.
  replace (r + 1 - 1) with r by lia. replace (c + 1 - 1) with c by lia.
  destruct (Z.ltb_spec r 0); [lia|]. destruct (Z.ltb_spec c 0); [lia|].
  reflexivity.
Qed.

Lemma rangePattern_match_single (letters digits : string) :
  letters <> EmptyString -> allChars isUpper letters = true ->
  digits <> EmptyString -> allChars isDigit digits = true ->
  matchAnchored rangePattern (letters ++ digits)
  = Some [Some letters; Some digits; None; None].
Proof.
  intros HL HLall HD HDall.
  unfold matchAnchored, rangePattern. cbn [catAll].
  apply run_cat, run_group_plus; [exact HL|exact HLall| |].
  { destruct digits as [|d digits]; [congruence|]. cbn in *.
    apply andb_prop in HDall. destruct HDall as [Hd _].
    rewrite (isDigit_not_upper d Hd). reflexivity. }
  apply run_cat, run_group_plus_end; [exact HD|exact HDall|reflexivity].
Qed.

Lemma trim_upper_digits (letters digits : string) :
  letters <> EmptyString -> allChars isUpper letters = true ->
  digits <> EmptyString -> allChars isDigit digits = true ->
  trim (letters ++ digits) = (letters ++ digits)%string.
Proof.
  intros HL HLall HD HDall. unfold trim.
  destruct letters as [|c letters]; [congruence|].
  cbn in HLall. apply andb_prop in HLall. destruct HLall as [Hc _].
  cbn [append trimStart]. rewrite (isUpper_not_space c Hc).
  change (String c (letters ++ digits)) with (String c letters ++ digits)%string.
  apply trimEnd_app_keep; [exact HD|].
  apply (allChars_weaken isDigit); [|exact HDall].
  intros a Ha. unfold notSpace. rewrite (isDigit_not_space a Ha). reflexivity.
Qed.

(** A valid cell on its own parses to the span of that single cell. *)
Lemma parseCellSpec_single (X : string) (cx : CellAddress) :
  excelNotationToCell X = Some cx ->
  parseCellSpec X = parseOk (singleCell (row cx) (column cx)).
Proof.
  intros HX.
  destruct (excelNotationToCell_inv X cx HX)
    as (l1 & d1 & EX & HL1 & HL1all & HD1 & HD1all).
  unfold parseCellSpec.
  rewrite trim_toUpperCase, EX, trim_upper_digits by assumption.
  assert (Ecoord : matchAnchored coordPattern (l1 ++ d1) = None).
  { destruct l1 as [|c l1]; [congruence|].
    cbn in HL1all. apply andb_prop in HL1all. destruct HL1all as [Hc _].
    apply coordPattern_needs_digit, isUpper_not_digit. exact Hc. }
  rewrite Ecoord, rangePattern_match_single by assumption.
  unfold parseExcelMatch.
  rewrite <- EX, excelNotationToCell_upper, HX. reflexivity.
Qed.

Lemma format_then_parse (span : CellSpan) :
  safeSpan span -> parseCellSpec (formatCellSpec span) = parseOk span.
Proof.
  intros (Hr & Hc & [Hrs Hcs] & Her & Hec).
  unfold endRowOf, endColumnOf in Her, Hec.
  assert (Hr' : 0 <= startRow span <= MAX_SAFE_INTEGER) by lia.
  assert (Hc' : 0 <= startColumn span <= MAX_SAFE_INTEGER) by lia.
  unfold formatCellSpec, formatCellSpan.
  destruct ((rowSpan span =? 1) && (columnSpan span =? 1)) eqn:Hone.
  - apply andb_prop in Hone. destruct Hone as [E1 E2].
    apply Z.eqb_eq in E1, E2.
    rewrite (parseCellSpec_single _ _ (notation_read_back _ _ Hr' Hc')).
    destruct span as [sr sc rs cs]. cbn in *. subst. reflexivity.
  - rewrite (parseCellSpec_range _ _ _ _
               (notation_read_back (startRow span) (startColumn span) Hr' Hc')
               (notation_read_back (startRow span + rowSpan span - 1)
                  (startColumn span + columnSpan span - 1)
                  ltac:(lia) ltac:(lia))).
    cbn [row column]. destruct span as [sr sc rs cs]. cbn in *.
    unfold parseOk. do 2 f_equal. f_equal; lia.
Qed.

(** X12. Formatting then parsing a span gives the span back: for every
    span that starts at a row and a column from 0 on, has at least one
    row and one column and ends at a row and a column that are safe
    integers (at most 2^53 - 1), [parseCellSpec] of its spreadsheet
    notation ([formatCellSpec], "A1" or "A1:C2") succeeds with that
    span. *)
Theorem parseCellSpec_formatCellSpec (span : CellSpan) :
  0 <= startRow span -> 0 <= startColumn span -> positiveSpan span ->
  endRowOf span <= MAX_SAFE_INTEGER -> endColumnOf span <= MAX_SAFE_INTEGER ->
  parseCellSpec (formatCellSpec span) = parseOk span.
Proof. intros. apply format_then_parse. unfold safeSpan. tauto. Qed.

Lemma parseCellSpec_formatCellSpec_witness :
  formatCellSpec {| startRow := 1; startColumn := 26; rowSpan := 2; columnSpan := 3 |}
  = "AA2:AC3"
  /\ parseCellSpec "AA2:AC3"
     = parseOk {| startRow := 1; startColumn := 26; rowSpan := 2; columnSpan := 3 |}.
Proof.
  split; [reflexivity|].
  apply (parseCellSpec_formatCellSpec
           {| startRow := 1; startColumn := 26; rowSpan := 2; columnSpan := 3 |});
    [cbn; lia|cbn; lia|split; cbn; lia|vm_compute; discriminate
    |vm_compute; discriminate].
Defined.

Lemma trim_notSpace (s : string) : allChars notSpace s = true -> trim s = s.
Proof.
  intros H. unfold trim.
  assert (E : trimStart s = s).
  { destruct s as [|c s]; [reflexivity|]. cbn in *.
    apply andb_prop in H. destruct H as [Hc _].
    apply negb_true_iff in Hc. rewrite Hc. reflexivity. }
  rewrite E. apply trimEnd_notSpace. exact H.
Qed.

Lemma digits_notSpace (s : string) :
  allChars isDigit s = true -> allChars notSpace s = true.
Proof.
  apply allChars_weaken. intros c Hc. unfold notSpace.
  rewrite (isDigit_not_space c Hc). reflexivity.
Qed.

Lemma digits_stop_space (digits rest : string) :
  textOf isDigit digits -> stopsAt isSpace (digits ++ rest) = true.
Proof.
  intros [Hne Hall]. destruct digits as [|d digits]; [congruence|].
  cbn in *. apply andb_prop in Hall. destruct Hall as [Hd _].
  rewrite (isDigit_not_space d Hd). reflexivity.
Qed.

Lemma toString_text (n : Z) : 0 <= n -> textOf isDigit (toString n).
Proof.
  intros H. destruct (toString_digits n H) as [Hall Hne]. split; assumption.
Qed.

Lemma toUpperCase_digits (s : string) :
  allChars isDigit s = true -> toUpperCase s = s.
Proof.
  intros H. apply toUpperCase_fixed.
  apply (allChars_weaken isDigit); [exact isDigit_not_lower|exact H].
Qed.

Lemma coordPattern_match_cell (rowStr colStr : string) :
  textOf isDigit rowStr -> textOf isDigit colStr ->
  matchAnchored coordPattern (rowStr ++ String "," colStr)
  = Some [Some rowStr; Some colStr; None; None].
Proof.
  intros [HR HRall] [HC HCall].
  unfold matchAnchored, coordPattern. cbn [catAll].
  apply run_cat, run_group_plus; [exact HR|exact HRall|reflexivity|].
  apply run_cat, run_star_skip; [reflexivity|].
  apply run_cat, run_cls; [reflexivity|].
  apply run_cat, run_star_skip.
  { rewrite <- (append_nil_r colStr). apply digits_stop_space. split; assumption. }
  apply run_cat, run_group_plus_end; [exact HC|exact HCall|reflexivity].
Qed.

Lemma coordPattern_match_span (rowStr colStr rowSpanStr colSpanStr : string) :
  textOf isDigit rowStr -> textOf isDigit colStr ->
  textOf isDigit rowSpanStr -> textOf isDigit colSpanStr ->
  matchAnchored coordPattern
    (rowStr ++ String "," (colStr ++ String ":" (rowSpanStr ++ String "X" colSpanStr)))
  = Some [Some rowStr; Some colStr; Some rowSpanStr; Some colSpanStr].
Proof.
  intros [HR HRall] [HC HCall] [HRS HRSall] [HCS HCSall].
  unfold matchAnchored, coordPattern. cbn [catAll].
  apply run_cat, run_group_plus; [exact HR|exact HRall|reflexivity|].
  apply run_cat, run_star_skip; [reflexivity|].
  apply run_cat, run_cls; [reflexivity|].
  apply run_cat, run_star_skip; [apply digits_stop_space; split; assumption|].
  apply run_cat, run_group_plus; [exact HC|exact HCall|reflexivity|].
  apply run_opt_taken.
  apply run_cat, run_star_skip; [reflexivity|].
  apply run_cat, run_cls; [reflexivity|].
  apply run_cat, run_star_skip; [apply digits_stop_space; split; assumption|].
  apply run_cat, run_group_plus; [exact HRS|exact HRSall|reflexivity|].
  apply run_cat, run_star_skip; [reflexivity|].
  apply run_cat, run_cls; [reflexivity|].
  apply run_cat, run_star_skip.
  { rewrite <- (append_nil_r colSpanStr). apply digits_stop_space.
    split; assumption. }
  apply run_group_plus_end; [exact HCS|exact HCSall|reflexivity].
Qed.

Lemma truthy_text (p : ascii -> bool) (s : string) :
  textOf p s -> truthy (Some s) = true.
Proof.
  intros [Hne _]. unfold truthy.
  destruct (String.eqb_spec s EmptyString) as [E|_]; [congruence|reflexivity].
Qed.

(** X13. The coordinate notation reads back as well: for every span that
    starts at a row and a column from 0 on, has at least one row and one
    column, and whose four numbers are safe integers (at most 2^53 - 1),
    [parseCellSpec] of [formatCellSpecCoords] ("1,2" or "0,0:2x3", written
    with a small x) succeeds with that span. *)
Theorem parseCellSpec_formatCellSpecCoords (span : CellSpan) :
  0 <= startRow span <= MAX_SAFE_INTEGER ->
  0 <= startColumn span <= MAX_SAFE_INTEGER ->
  1 <= rowSpan span <= MAX_SAFE_INTEGER ->
  1 <= columnSpan span <= MAX_SAFE_INTEGER ->
  parseCellSpec (formatCellSpecCoords span) = parseOk span.
Proof.
  intros [Hr _] [Hc _] [Hrs _] [Hcs _].
  pose proof (toString_text (startRow span) Hr) as TR.
  pose proof (toString_text (startColumn span) Hc) as TC.
  pose proof (toString_text (rowSpan span) ltac:(lia)) as TRS.
  pose proof (toString_text (columnSpan span) ltac:(lia)) as TCS.
  unfold formatCellSpecCoords, formatCellSpanCoords, parseCellSpec.
  destruct ((rowSpan span =? 1) && (columnSpan span =? 1)) eqn:Hone.
  - apply andb_prop in Hone. destruct Hone as [E1 E2].
    apply Z.eqb_eq in E1, E2.
    cbn [append]. rewrite trim_toUpperCase, toUpperCase_app. cbn [toUpperCase].
    change (upperChar ",") with ","%char.
    rewrite !toUpperCase_digits by (apply TR || apply TC).
    rewrite trim_notSpace.
    2:{ rewrite allChars_app. cbn [allChars].
        rewrite !digits_notSpace by (apply TR || apply TC). reflexivity. }
    rewrite coordPattern_match_cell by assumption.
    rewrite !parseInt10_toString by assumption. cbn.
    destruct span as [sr sc rs cs]. cbn in *. subst. reflexivity.
  - cbn [append]. rewrite trim_toUpperCase.
    rewrite !toUpperCase_app. cbn [toUpperCase]. rewrite !toUpperCase_app.
    cbn [toUpperCase]. rewrite !toUpperCase_app. cbn [toUpperCase].
    change (upperChar ",") with ","%char.
    change (upperChar ":") with ":"%char.
    change (upperChar "x") with "X"%char.
    rewrite !toUpperCase_digits by (apply TR || apply TC || apply TRS || apply TCS).
    rewrite trim_notSpace.
    2:{ rewrite !allChars_app. cbn [allChars]. rewrite !allChars_app.
        cbn [allChars]. rewrite !allChars_app. cbn [allChars].
        rewrite !digits_notSpace
          by (apply TR || apply TC || apply TRS || apply TCS).
        reflexivity. }
    rewrite coordPattern_match_span by assumption.
    unfold parseIntOr1.
    rewrite (truthy_text _ _ TRS), (truthy_text _ _ TCS).
    rewrite !parseInt10_toString by lia.
    destruct (Z.ltb_spec (rowSpan span) 1); [lia|].
    destruct (Z.ltb_spec (columnSpan span) 1); [lia|].
    destruct span; reflexivity.
Qed.

Lemma parseCellSpec_formatCellSpecCoords_witness :
  formatCellSpecCoords
    {| startRow := 10; startColumn := 0; rowSpan := 2; columnSpan := 12 |}
  = "10,0:2x12"
  /\ parseCellSpec "10,0:2x12"
     = parseOk {| startRow := 10; startColumn := 0; rowSpan := 2; columnSpan := 12 |}.
Proof.
  split; [reflexivity|].
  apply (parseCellSpec_formatCellSpecCoords
           {| startRow := 10; startColumn := 0; rowSpan := 2; columnSpan := 12 |});
    unfold MAX_SAFE_INTEGER; cbn; lia.
Defined.

Lemma trimStart_padding (pre s : string) :
  allChars isSpace pre = true -> trimStart (pre ++ s) = trimStart s.
Proof.
  induction pre as [|c pre IH]; cbn; [reflexivity|].
  intros H. apply andb_prop in H. destruct H as [Hc Hpre].
  rewrite Hc. apply IH. exact Hpre.
Qed.

Lemma trimEnd_spaces (post : string) :
  allChars isSpace post = true -> trimEnd post = EmptyString.
Proof.
  induction post as [|c post IH]; cbn; [reflexivity|].
  intros H. apply andb_prop in H. destruct H as [Hc Hpost].
  rewrite (IH Hpost), Hc. reflexivity.
Qed.

Lemma trimEnd_padding (s post : string) :
  allChars isSpace post = true -> trimEnd (s ++ post) = trimEnd s.
Proof.
  intros H. induction s as [|c s IH]; cbn.
  - apply trimEnd_spaces. exact H.
  - rewrite IH. reflexivity.
Qed.

Lemma trimStart_app_padding (s post : string) :
  allChars isSpace post = true ->
  trimStart (s ++ post) = (trimStart s ++ post)%string
  \/ (trimStart s = EmptyString /\ trimStart (s ++ post) = EmptyString).
Proof.
  intros H. induction s as [|c s IH]; cbn.
  - right. split; [reflexivity|].
    rewrite <- (append_nil_r post), trimStart_padding by exact H. reflexivity.
  - destruct (isSpace c); [exact IH|]. left. reflexivity.
Qed.

Lemma trim_padding (pre s post : string) :
  allChars isSpace pre = true -> allChars isSpace post = true ->
  trim (pre ++ s ++ post) = trim s.
Proof.
  intros Hpre Hpost. unfold trim. rewrite trimStart_padding by exact Hpre.
  destruct (trimStart_app_padding s post Hpost) as [E|[E1 E2]].
  - rewrite E. apply trimEnd_padding. exact Hpost.
  - rewrite E1, E2. reflexivity.
Qed.

(** The success flag and the span of a parse are decided by the trimmed,
    upper-cased text alone. *)
Lemma parseCellSpec_same_trimmed (s s' : string) :
  toUpperCase (trim s) = toUpperCase (trim s') ->
  parseOutcome (parseCellSpec s) = parseOutcome (parseCellSpec s').
Proof.
  intros H. unfold parseCellSpec, parseExcelMatch. rewrite H.
  repeat match goal with
    | |- context [match ?scrutinee with _ => _ end] => destruct scrutinee
    end;
    reflexivity.
Qed.

(** X14. [parseCellSpec] is insensitive to case and to surrounding white
    space: writing a specification in capitals and padding it with white
    space on either side changes neither whether it parses nor the span it
    parses to. *)
Theorem parseCellSpec_ignores_case_and_padding (pre s post : string) :
  allChars isSpace pre = true -> allChars isSpace post = true ->
  parseOutcome (parseCellSpec (pre ++ toUpperCase s ++ post))
  = parseOutcome (parseCellSpec s).
Proof.
  intros Hpre Hpost. apply parseCellSpec_same_trimmed.
  rewrite trim_padding by assumption.
  rewrite trim_toUpperCase, toUpperCase_idem, <- trim_toUpperCase.
  reflexivity.
Qed.

Lemma parseCellSpec_ignores_case_and_padding_witness :
  parseOutcome (parseCellSpec "  B2:C3 ")
  = parseOutcome (parseCellSpec "b2:c3").
Proof.
  apply (parseCellSpec_ignores_case_and_padding "  " "b2:c3" " "); reflexivity.
Defined.

Lemma parseDigits_ge (s : string) : forall acc, 0 <= acc -> acc <= parseDigits acc s.
Proof.
  induction s as [|c s IH]; intros acc Hacc; cbn; [lia|].
  destruct (isDigit c) eqn:Hc; [|lia].
  assert (0 <= charCode c - 48) by (unfold isDigit in Hc; lia).
  specialize (IH (acc * 10 + (charCode c - 48)) ltac:(lia)). lia.
Qed.

Lemma excelNotationToCell_nonneg (s : string) (cell : CellAddress) :
  excelNotationToCell s = Some cell -> 0 <= row cell /\ 0 <= column cell.
Proof.
  unfold excelNotationToCell.
  destruct (matchAnchored cellPattern (toUpperCase s))
    as [[|[colStr|] [|[rowStr|] [|? ?]]]|]; try discriminate.
  destruct (Z.ltb_spec (parseInt10 rowStr - 1) 0); [discriminate|].
  destruct (Z.ltb_spec (columnValue 0 colStr - 1) 0); [discriminate|].
  cbn. intros [= <-]. cbn. lia.
Qed.

Lemma parseExcelMatch_well_formed (a b : string) (c d : option string)
    (span : CellSpan) :
  parsedSpan (parseExcelMatch a b c d) = Some span ->
  0 <= startRow span /\ 0 <= startColumn span /\ positiveSpan span.
Proof.
  unfold parseExcelMatch.
  destruct (excelNotationToCell (a ++ b)) as [startCell|] eqn:Hs;
    [|discriminate].
  apply excelNotationToCell_nonneg in Hs.
  assert (Hsingle :
    parsedSpan (parseOk (singleCell (row startCell) (column startCell)))
    = Some span ->
    0 <= startRow span /\ 0 <= startColumn span /\ positiveSpan span).
  { cbn. intros [= <-]. unfold positiveSpan. cbn. lia. }
  destruct c as [endCol|]; [|exact Hsingle].
  destruct d as [endRow|]; [|exact Hsingle].
  destruct (truthy (Some endCol) && truthy (Some endRow)); [|exact Hsingle].
  destruct (excelNotationToCell (endCol ++ endRow)) as [endCell|] eqn:He;
    [|discriminate].
  apply excelNotationToCell_nonneg in He.
  cbn. intros [= <-]. unfold positiveSpan. cbn. lia.
Qed.

Lemma toUpperCase_length (s : string) :
  String.length (toUpperCase s) = String.length s.
Proof. induction s as [|c s IH]; cbn; [reflexivity|]. rewrite IH. reflexivity. Qed.

Lemma trimStart_length (s : string) :
  (String.length (trimStart s) <= String.length s)%nat.
Proof.
  induction s as [|c s IH]; cbn; [lia|]. destruct (isSpace c); cbn; lia.
Qed.

Lemma trimEnd_length (s : string) :
  (String.length (trimEnd s) <= String.length s)%nat.
Proof.
  induction s as [|c s IH]; cbn; [lia|].
  destruct (trimEnd s); [destruct (isSpace c)|]; cbn in *; lia.
Qed.

Lemma trim_length (s : string) :
  (String.length (trim s) <= String.length s)%nat.
Proof.
  unfold trim. pose proof (trimEnd_length (trimStart s)).
  pose proof (trimStart_length s). lia.
Qed.

Lemma parseDigits_lt (s : string) :
  forall acc, 0 <= acc ->
    parseDigits acc s + 1 <= (acc + 1) * 10 ^ Z.of_nat (String.length s).
Proof.
  induction s as [|c s IH]; intros acc Hacc.
  - cbn. lia.
  - cbn [parseDigits String.length]. rewrite Nat2Z.inj_succ, Z.pow_succ_r by lia.
    assert (Hp : 0 < 10 ^ Z.of_nat (String.length s)) by (apply Z.pow_pos_nonneg; lia).
    destruct (isDigit c) eqn:Hc; [|nia].
    assert (0 <= charCode c - 48 <= 9) by (unfold isDigit in Hc; lia).
    specialize (IH (acc * 10 + (charCode c - 48)) ltac:(lia)). nia.
Qed.

Lemma columnValue_le (s : string) :
  allChars isUpper s = true ->
  forall acc, 0 <= acc ->
    25 * columnValue acc s + 26
    <= (25 * acc + 26) * 26 ^ Z.of_nat (String.length s).
Proof.
  induction s as [|c s IH]; intros Hall acc Hacc.
  - cbn. lia.
  - cbn in Hall. apply andb_prop in Hall. destruct Hall as [Hc Hs].
    cbn [columnValue String.length]. rewrite Nat2Z.inj_succ, Z.pow_succ_r by lia.
    assert (Hp : 0 < 26 ^ Z.of_nat (String.length s)) by (apply Z.pow_pos_nonneg; lia).
    assert (1 <= charCode c - 64 <= 26) by (unfold isUpper in Hc; lia).
    specialize (IH Hs (acc * 26 + (charCode c - 64)) ltac:(lia)). nia.
Qed.

Lemma matches_group_length (r : regex) (s : string) (caps : captures) :
  matches r s caps ->
  forall t, In (Some t) caps -> (String.length t <= String.length s)%nat.
Proof.
  induction 1 as [p c Hc|p s Hs|p s Hne Hs|r1 r2 s1 s2 caps1 caps2 M1 IH1 M2 IH2
                 |r s caps M IH|r s caps M IH|r]; intros t Hin.
  - destruct Hin.
  - destruct Hin.
  - destruct Hin.
  - rewrite length_append. apply in_app_or in Hin.
    destruct Hin as [Hin|Hin]; [specialize (IH1 t Hin)|specialize (IH2 t Hin)]; lia.
  - apply in_app_or in Hin. destruct Hin as [Hin|[[= <-]|[]]]; [auto|lia].
  - auto.
  - apply repeat_spec in Hin. discriminate.
Qed.

Lemma rangePattern_lengths (s a b : string) (c d : option string) :
  matchAnchored rangePattern s = Some [Some a; Some b; c; d] ->
  (String.length a + String.length b <= String.length s)%nat
  /\ (forall c' d', c = Some c' -> d = Some d' ->
        (String.length c' + String.length d' <= String.length s)%nat).
Proof.
  intros H. apply matchAnchored_sound in H.
  unfold rangePattern in H. cbn [catAll] in H.
  invert_matches.
  all: match goal with
       | E : _ = [Some _; Some _; _; _] |- _ => cbn in E; injection E as <- <- <- <-
       end.
  all: rewrite !length_append; cbn [String.length]; split; [lia|].
  - intros c' d' [= <-] [= <-]. lia.
  - intros c' d' [=].
Qed.

Lemma excelNotationToCell_parts (a b : string) (cell : CellAddress) :
  textOf isUpper a -> textOf isDigit b ->
  excelNotationToCell (a ++ b) = Some cell ->
  row cell = parseInt10 b - 1 /\ column cell = columnValue 0 a - 1.
Proof.
  intros [Ha Haall] [Hb Hball]. unfold excelNotationToCell.
  rewrite upper_digits_fixed, cellPattern_match by assumption.
  destruct ((parseInt10 b - 1 <? 0) || (columnValue 0 a - 1 <? 0));
    [discriminate|].
  intros [= <-]. split; reflexivity.
Qed.

Lemma parseInt10_short (s : string) (n : nat) :
  (String.length s <= n)%nat -> parseInt10 s < 10 ^ Z.of_nat n.
Proof.
  intros Hlen. unfold parseInt10.
  pose proof (parseDigits_lt s 0 ltac:(lia)) as H.
  assert (10 ^ Z.of_nat (String.length s) <= 10 ^ Z.of_nat n)
    by (apply Z.pow_le_mono_r; lia).
  lia.
Qed.

Lemma columnValue_short (s : string) (n : nat) :
  allChars isUpper s = true -> (String.length s <= n)%nat ->
  25 * columnValue 0 s + 26 <= 26 * 26 ^ Z.of_nat n.
Proof.
  intros Hall Hlen.
  pose proof (columnValue_le s Hall 0 ltac:(lia)) as H.
  assert (26 ^ Z.of_nat (String.length s) <= 26 ^ Z.of_nat n)
    by (apply Z.pow_le_mono_r; lia).
  lia.
Qed.

Lemma short_cell_safe (a b : string) (cell : CellAddress) :
  textOf isUpper a -> textOf isDigit b ->
  (String.length a + String.length b <= 12)%nat ->
  excelNotationToCell (a ++ b) = Some cell ->
  row cell < 10 ^ 11 /\ column cell < 2 ^ 52.
Proof.
  intros HA HB Hlen Hcell.
  destruct (excelNotationToCell_parts a b cell HA HB Hcell) as [-> ->].
  destruct HA as [Ha Haall]. destruct HB as [Hb Hball].
  assert (1 <= String.length a)%nat by (destruct a; [congruence|cbn; lia]).
  assert (1 <= String.length b)%nat by (destruct b; [congruence|cbn; lia]).
  pose proof (parseInt10_short b 11 ltac:(lia)) as Hrow.
  pose proof (columnValue_short a 11 Haall ltac:(lia)) as Hcol.
  change (Z.of_nat 11) with 11 in *.
  split; [lia|].
  change (26 ^ 11) with 3670344486987776 in Hcol.
  change (2 ^ 52) with 4503599627370496. lia.
Qed.

Lemma parseExcelMatch_safe (a b : string) (c d : option string)
    (span : CellSpan) :
  textOf isUpper a -> textOf isDigit b ->
  optTextOf isUpper c -> optTextOf isDigit d ->
  (String.length a + String.length b <= 12)%nat ->
  (forall c' d', c = Some c' -> d = Some d' ->
     (String.length c' + String.length d' <= 12)%nat) ->
  parsedSpan (parseExcelMatch a b c d) = Some span ->
  endRowOf span < 10 ^ 11 /\ endColumnOf span < 2 ^ 52.
Proof.
  intros HA HB HC HD Hab Hcd. unfold parseExcelMatch.
  destruct (excelNotationToCell (a ++ b)) as [startCell|] eqn:Hs;
    [|discriminate].
  destruct (short_cell_safe a b startCell HA HB Hab Hs) as [Hr Hc].
  assert (Hsingle :
    parsedSpan (parseOk (singleCell (row startCell) (column startCell)))
    = Some span ->
    endRowOf span < 10 ^ 11 /\ endColumnOf span < 2 ^ 52).
  { cbn. intros [= <-]. unfold endRowOf, endColumnOf. cbn. lia. }
  destruct c as [endCol|]; [|exact Hsingle].
  destruct d as [endRow|]; [|exact Hsingle].
  destruct (truthy (Some endCol) && truthy (Some endRow)); [|exact Hsingle].
  destruct (excelNotationToCell (endCol ++ endRow)) as [endCell|] eqn:He;
    [|discriminate].
  destruct (short_cell_safe endCol endRow endCell HC HD
              (Hcd _ _ eq_refl eq_refl) He) as [Hr' Hc'].
  cbn. intros [= <-]. unfold endRowOf, endColumnOf. cbn. lia.
Qed.

Lemma parseIntOr1_short (g : option string) :
  (forall t, g = Some t -> (String.length t <= 12)%nat) ->
  parseIntOr1 g < 10 ^ 12.
Proof.
  intros H. unfold parseIntOr1. destruct g as [t|]; [|lia].
  destruct (truthy (Some t)); [|lia].
  apply (parseInt10_short t 12), H. reflexivity.
Qed.

Lemma parseCellSpec_short_ends (spec : string) (span : CellSpan) :
  (String.length spec <= 12)%nat ->
  parsedSpan (parseCellSpec spec) = Some span ->
  endRowOf span <= MAX_SAFE_INTEGER /\ endColumnOf span <= MAX_SAFE_INTEGER.
Proof.
  intros Hlen. unfold parseCellSpec.
  assert (Htrim : (String.length (toUpperCase (trim spec)) <= 12)%nat).
  { rewrite toUpperCase_length. pose proof (trim_length spec). lia. }
  set (trimmed := toUpperCase (trim spec)) in *.
  assert (Hfallback :
    parsedSpan
      match matchAnchored rangePattern trimmed with
      | Some [Some startColStr; Some startRowStr; endColStr; endRowStr] =>
          parseExcelMatch startColStr startRowStr endColStr endRowStr
      | _ => parseFail ("Invalid cell specification: " ++ spec)
      end = Some span ->
    endRowOf span <= MAX_SAFE_INTEGER /\ endColumnOf span <= MAX_SAFE_INTEGER).
  { destruct (matchAnchored rangePattern trimmed) as [res|] eqn:M;
      [|discriminate].
    destruct (rangePattern_shape trimmed res M)
      as (a & b & c & d & -> & HA & HB & HC & HD).
    destruct (rangePattern_lengths trimmed a b c d M) as [Hab Hcd].
    intros Hspan.
    destruct (parseExcelMatch_safe a b c d span HA HB HC HD ltac:(lia)
                ltac:(intros c' d' Ec Ed; specialize (Hcd c' d' Ec Ed); lia)
                Hspan) as [Hr Hc].
    unfold MAX_SAFE_INTEGER.
    change (10 ^ 11) with 100000000000 in Hr.
    change (2 ^ 52) with 4503599627370496 in Hc.
    change (2 ^ 53) with 9007199254740992. lia. }
  destruct (matchAnchored coordPattern trimmed) as [res|] eqn:M;
    [|exact Hfallback].
  destruct (coordPattern_shape trimmed res M)
    as (a & b & c & d & -> & HA & HB & HC & HD).
  pose proof (matches_group_length _ _ _ (matchAnchored_sound _ _ _ M)) as Hgroup.
  assert (Ha : parseInt10 a < 10 ^ 12).
  { apply (parseInt10_short a 12).
    specialize (Hgroup a ltac:(cbn; auto)). lia. }
  assert (Hb : parseInt10 b < 10 ^ 12).
  { apply (parseInt10_short b 12).
    specialize (Hgroup b ltac:(cbn; auto)). lia. }
  assert (Hc : parseIntOr1 c < 10 ^ 12).
  { apply parseIntOr1_short. intros t ->.
    specialize (Hgroup t ltac:(cbn; auto)). lia. }
  assert (Hd : parseIntOr1 d < 10 ^ 12).
  { apply parseIntOr1_short. intros t ->.
    specialize (Hgroup t ltac:(cbn; auto)). lia. }
  destruct ((parseIntOr1 c <? 1) || (parseIntOr1 d <? 1)); [discriminate|].
  cbn. intros [= <-]. unfold endRowOf, endColumnOf, MAX_SAFE_INTEGER. cbn.
  change (10 ^ 12) with 1000000000000 in *.
  change (2 ^ 53) with 9007199254740992. lia.
Qed.

(** Every span that [parseCellSpec] returns starts at a row and a column
    that are not negative and has at least one row and one column. *)
Lemma parsed_span_well_formed (spec : string) (span : CellSpan) :
  parsedSpan (parseCellSpec spec) = Some span ->
  0 <= startRow span /\ 0 <= startColumn span /\ positiveSpan span.
Proof.
  unfold parseCellSpec.
  set (trimmed := toUpperCase (trim spec)).
  set (fallback :=
         match matchAnchored rangePattern trimmed with
         | Some [Some startColStr; Some startRowStr; endColStr; endRowStr] =>
             parseExcelMatch startColStr startRowStr endColStr endRowStr
         | _ => parseFail ("Invalid cell specification: " ++ spec)
         end).
  assert (Hfallback :
    parsedSpan fallback = Some span ->
    0 <= startRow span /\ 0 <= startColumn span /\ positiveSpan span).
  { unfold fallback.
    destruct (matchAnchored rangePattern trimmed)
      as [[|[a|] [|[b|] [|c [|d [|? ?]]]]]|]; try discriminate.
    apply parseExcelMatch_well_formed. }
  destruct (matchAnchored coordPattern trimmed)
    as [[|[a|] [|[b|] [|c [|d [|? ?]]]]]|]; try exact Hfallback.
  destruct (Z.ltb_spec (parseIntOr1 c) 1); [discriminate|].
  destruct (Z.ltb_spec (parseIntOr1 d) 1); [discriminate|].
  cbn. intros [= <-]. unfold positiveSpan. cbn.
  pose proof (parseDigits_ge a 0 ltac:(lia)).
  pose proof (parseDigits_ge b 0 ltac:(lia)).
  unfold parseInt10. lia.
Qed.

(** X15. Every span that [parseCellSpec] returns for an ASCII
    specification of at most 12 characters is well formed: its start row
    and column are not negative, it has at least one row and one column,
    and its last row and column are safe integers (such a specification
    writes no column of more than 11 letters and no number of more than 11
    digits, so every number read is below 2^53), for the coordinate and
    for the spreadsheet notation alike. *)
Theorem parseCellSpec_span_well_formed (spec : string) (span : CellSpan) :
  allChars isAscii spec = true -> (String.length spec <= 12)%nat ->
  parsedSpan (parseCellSpec spec) = Some span ->
  safeSpan span.
Proof.
  intros _ Hlen Hspan.
  destruct (parsed_span_well_formed spec span Hspan) as (Hr & Hc & Hpos).
  destruct (parseCellSpec_short_ends spec span Hlen Hspan) as [Her Hec].
  repeat split; try assumption; apply Hpos.
Qed.

Lemma parseCellSpec_span_well_formed_witness :
  parseCellSpec "c3:B1"
  = parseOk {| startRow := 0; startColumn := 1; rowSpan := 3; columnSpan := 2 |}
  /\ safeSpan {| startRow := 0; startColumn := 1; rowSpan := 3; columnSpan := 2 |}.
Proof.
  split; [reflexivity|].
  apply (parseCellSpec_span_well_formed "c3:B1"
           {| startRow := 0; startColumn := 1; rowSpan := 3; columnSpan := 2 |}).
  - reflexivity.
  - cbn. lia.
  - reflexivity.
Defined.

(** ** From the notation back to the notation *)

Lemma string_snoc_cases (s : string) :
  s = EmptyString \/ exists body c, s = (body ++ String c EmptyString)%string.
Proof.
  induction s as [|c s IH]; [left; reflexivity|right].
  destruct IH as [->|(body & d & ->)].
  - exists EmptyString, c. reflexivity.
  - exists (String c body), d. reflexivity.
Qed.

Lemma string_snoc_ind (P : string -> Prop) :
  P EmptyString ->
  (forall body c, P body -> P (body ++ String c EmptyString)%string) ->
  forall s, P s.
Proof.
  intros Hnil Hsnoc s.
  remember (String.length s) as n eqn:Hn. revert s Hn.
  induction n as [|n IH]; intros s Hn.
  - destruct s; [exact Hnil|discriminate].
  - destruct (string_snoc_cases s) as [->|(body & c & ->)]; [exact Hnil|].
    apply Hsnoc, IH. rewrite length_append in Hn. cbn in Hn. lia.
Qed.

Lemma fromCharCode_charCode (c : ascii) : fromCharCode (charCode c) = c.
Proof.
  unfold fromCharCode. pose proof (charCode_range c) as H.
  rewrite Z.mod_small by exact H. unfold charCode.
  rewrite N2Z.id. apply ascii_N_embedding.
Qed.

Lemma columnValue_ge (s : string) :
  allChars isUpper s = true -> forall acc, 0 <= acc -> acc <= columnValue acc s.
Proof.
  induction s as [|c s IH]; cbn; intros Hall acc Hacc; [lia|].
  apply andb_prop in Hall. destruct Hall as [Hc Hs].
  assert (1 <= charCode c - 64) by (unfold isUpper in Hc; lia).
  specialize (IH Hs (acc * 26 + (charCode c - 64)) ltac:(lia)). lia.
Qed.

Lemma columnValue_pos (s : string) : textOf isUpper s -> 1 <= columnValue 0 s.
Proof.
  intros [Hne Hall]. destruct s as [|c s]; [congruence|]. cbn in *.
  apply andb_prop in Hall. destruct Hall as [Hc Hs].
  assert (1 <= charCode c - 64) by (unfold isUpper in Hc; lia).
  pose proof (columnValue_ge s Hs (charCode c - 64) ltac:(lia)). lia.
Qed.

(** Writing the letters of the value of a text of capitals gives the text. *)
Lemma columnLetters_of_columnValue (letters : string) :
  textOf isUpper letters ->
  forall fuel acc,
    (Z.to_nat (columnValue 0 letters - 1) <= fuel)%nat ->
    columnLetters fuel (columnValue 0 letters - 1) acc = (letters ++ acc)%string.
Proof.
  induction letters as [|body ch IH] using string_snoc_ind;
    intros [Hne Hall] fuel acc Hfuel; [congruence|].
  rewrite allChars_app in Hall. apply andb_prop in Hall.
  destruct Hall as [Hbody Hch]. cbn in Hch. rewrite andb_true_r in Hch.
  rewrite columnValue_app in *. cbn [columnValue] in *.
  set (v := columnValue 0 body) in *.
  assert (Hv : 0 <= v) by (apply (columnValue_ge body Hbody 0); lia).
  assert (Hd : 1 <= charCode ch - 64 <= 26) by (unfold isUpper in Hch; lia).
  assert (Hrem : Z.rem (v * 26 + (charCode ch - 64) - 1) 26 = charCode ch - 65).
  { rewrite Z.rem_mod_nonneg by lia.
    replace (v * 26 + (charCode ch - 64) - 1)
      with ((charCode ch - 65) + v * 26) by ring.
    rewrite Z.mod_add by lia. apply Z.mod_small. lia. }
  assert (Hdiv : (v * 26 + (charCode ch - 64) - 1) / 26 = v).
  { replace (v * 26 + (charCode ch - 64) - 1)
      with ((charCode ch - 65) + v * 26) by ring.
    rewrite Z.div_add by lia. rewrite Z.div_small by lia. lia. }
  assert (Hletter :
    fromCharCode (65 + Z.rem (v * 26 + (charCode ch - 64) - 1) 26) = ch).
  { rewrite Hrem. replace (65 + (charCode ch - 65)) with (charCode ch) by ring.
    apply fromCharCode_charCode. }
  rewrite append_assoc. cbn [append].
  destruct (string_snoc_cases body) as [E|(body' & c' & E)].
  - subst body. cbn in v. subst v. cbn [append].
    destruct fuel as [|fuel]; cbn [columnLetters]; rewrite Hletter, ?Hdiv;
      reflexivity.
  - assert (Hbody_text : textOf isUpper body).
    { split; [|exact Hbody]. rewrite E. destruct body'; discriminate. }
    pose proof (columnValue_pos body Hbody_text) as Hpos. fold v in Hpos.
    destruct fuel as [|fuel]; [lia|].
    cbn [columnLetters]. rewrite Hletter, Hdiv.
    destruct (Z.geb_spec (v - 1) 0) as [_|Hneg]; [|lia].
    apply IH; [exact Hbody_text|]. fold v. lia.
Qed.

Lemma digit_text_as_uint (s : string) :
  allChars isDigit s = true -> exists d, s = NilEmpty.string_of_uint d.
Proof.
  induction s as [|c s IH]; cbn; intros H.
  - exists Nil. reflexivity.
  - apply andb_prop in H. destruct H as [Hc Hs].
    destruct (IH Hs) as (d & ->).
    destruct c as [[|] [|] [|] [|] [|] [|] [|] [|]]; try discriminate Hc;
      first [ exists (D0 d); reflexivity | exists (D1 d); reflexivity
            | exists (D2 d); reflexivity | exists (D3 d); reflexivity
            | exists (D4 d); reflexivity | exists (D5 d); reflexivity
            | exists (D6 d); reflexivity | exists (D7 d); reflexivity
            | exists (D8 d); reflexivity | exists (D9 d); reflexivity ].
Qed.

Lemma parseInt10_string_of_uint (d : uint) :
  parseInt10 (NilEmpty.string_of_uint d) = Z.of_N (N.of_uint d).
Proof.
  unfold parseInt10.
  pose proof (parseDigits_string_of_uint d Nil) as H.
  change (Z.of_N (Unsigned.of_lu Nil)) with 0 in H. rewrite H.
  change (revapp d Nil) with (rev d).
  rewrite <- Unsigned.of_uint_alt. reflexivity.
Qed.

(** A text of digits that does not start with a zero is the decimal
    notation of the number it writes. *)
Lemma toString_parseInt10 (digits : string) :
  textOf isDigit digits -> String.get 0 digits <> Some "0"%char ->
  toString (parseInt10 digits) = digits /\ 1 <= parseInt10 digits.
Proof.
  intros [Hne Hall] Hlead.
  destruct (digit_text_as_uint digits Hall) as (d & ->).
  assert (Hnorm : unorm d = d /\ d <> Nil).
  { destruct d; cbn in *; try congruence; split; try reflexivity;
      discriminate. }
  destruct Hnorm as [Hnorm Hnil].
  rewrite parseInt10_string_of_uint.
  assert (Hto : N.to_uint (N.of_uint d) = d)
    by (rewrite DecimalN.Unsigned.to_of; exact Hnorm).
  split.
  - rewrite toString_nonneg by lia. rewrite N2Z.id, Hto.
    destruct d; congruence || reflexivity.
  - destruct (N.of_uint d) eqn:E; [|lia].
    cbn in Hto. subst d. cbn in Hlead. congruence.
Qed.

(** X16. The spreadsheet notation is canonical: a text of capitals followed
    by a text of digits that does not start with a zero, writing a column
    number and a row number that are safe integers (at most 2^53 - 1), is
    accepted by [excelNotationToCell], and [cellToExcelNotation] of the
    cell it denotes is that same text: reading the notation and writing it
    again changes nothing. *)
Theorem cellToExcelNotation_of_excelNotationToCell (letters digits : string) :
  textOf isUpper letters -> textOf isDigit digits ->
  String.get 0 digits <> Some "0"%char ->
  columnValue 0 letters <= MAX_SAFE_INTEGER ->
  parseInt10 digits <= MAX_SAFE_INTEGER ->
  exists cell,
    excelNotationToCell (letters ++ digits) = Some cell
    /\ 0 <= row cell /\ 0 <= column cell
    /\ cellToExcelNotation (row cell) (column cell) = (letters ++ digits)%string.
Proof.
  intros HL HD Hlead Hcmax Hrmax.
  destruct (toString_parseInt10 digits HD Hlead) as [Hback Hrow].
  pose proof (columnValue_pos letters HL) as Hcol.
  exists {| row := parseInt10 digits - 1; column := columnValue 0 letters - 1 |}.
  cbn [row column].
  split; [|split; [lia|split; [lia|]]].
  - unfold excelNotationToCell.
    destruct HL as [HLne HLall]. destruct HD as [HDne HDall].
    rewrite upper_digits_fixed, cellPattern_match by assumption.
    destruct (Z.ltb_spec (parseInt10 digits - 1) 0); [lia|].
    destruct (Z.ltb_spec (columnValue 0 letters - 1) 0); [lia|].
    reflexivity.
  - unfold cellToExcelNotation.
    rewrite (columnLetters_of_columnValue letters HL) by lia.
    rewrite append_nil_r.
    replace (parseInt10 digits - 1 + 1) with (parseInt10 digits) by lia.
    rewrite roundDouble_exact by lia.
    rewrite Hback. reflexivity.
Qed.

Lemma cellToExcelNotation_of_excelNotationToCell_witness :
  excelNotationToCell "ZZ100" = Some {| row := 99; column := 701 |}
  /\ exists cell,
       excelNotationToCell "ZZ100" = Some cell
       /\ cellToExcelNotation (row cell) (column cell) = "ZZ100".
Proof.
  split; [reflexivity|].
  destruct (cellToExcelNotation_of_excelNotationToCell "ZZ" "100")
    as (cell & Hcell & _ & _ & Hback).
  - split; [discriminate|reflexivity].
  - split; [discriminate|reflexivity].
  - cbn. discriminate.
  - vm_compute. discriminate.
  - vm_compute. discriminate.
  - exists cell. split; assumption.
Defined.

(** ** Assigning, removing and looking up *)

Lemma find_filter_keep (w other : string) (l : list CellAssignment) :
  other <> w ->
  find (hasId other) (filter (fun a => negb (String.eqb (windowId a) w)) l)
  = find (hasId other) l.
Proof.
  intros Hne. induction l as [|a l IH]; cbn; [reflexivity|].
  destruct (String.eqb_spec (windowId a) w) as [E|E]; cbn.
  - destruct (String.eqb_spec (windowId a) other) as [E'|_]; [congruence|].
    exact IH.
  - destruct (String.eqb (windowId a) other); [reflexivity|exact IH].
Qed.

Lemma filter_absent (w : string) (l : list CellAssignment) :
  find (hasId w) l = None ->
  filter (fun a => negb (String.eqb (windowId a) w)) l = l.
Proof.
  induction l as [|a l IH]; cbn; [reflexivity|].
  destruct (String.eqb (windowId a) w); [discriminate|].
  intros H. cbn. rewrite (IH H). reflexivity.
Qed.

Lemma getWindowCellSpan_none_iff (w : string) (gridState : GridState) :
  getWindowCellSpan w gridState = None
  <-> find (hasId w) (assignments gridState) = None.
Proof.
  unfold getWindowCellSpan.
  destruct (find (hasId w) (assignments gridState)); split; congruence.
Qed.

(** X17. Removing a window leaves it without a span and leaves the other
    windows with theirs; removing a window that has no assignment changes
    no assignment; assigning a window leaves the spans of the others as
    they were; and removing a window right after it was assigned for the
    first time gives back the assignments there were before. *)
Theorem removeWindowFromGrid_lookup (wid : string) (gridState : GridState)
    (now : string) :
  getWindowCellSpan wid (removeWindowFromGrid wid gridState now) = None
  /\ (forall other, other <> wid ->
      getWindowCellSpan other (removeWindowFromGrid wid gridState now)
      = getWindowCellSpan other gridState)
  /\ (forall other span, other <> wid ->
      getWindowCellSpan other (assignWindowToGrid wid span gridState now)
      = getWindowCellSpan other gridState)
  /\ (getWindowCellSpan wid gridState = None ->
      assignments (removeWindowFromGrid wid gridState now)
      = assignments gridState
      /\ forall span now',
           assignments
             (removeWindowFromGrid wid
                (assignWindowToGrid wid span gridState now) now')
           = assignments gridState).
Proof.
  split; [|split; [|split]].
  - unfold getWindowCellSpan, removeWindowFromGrid; cbn [assignments].
    rewrite find_filter_other. reflexivity.
  - intros other Hne.
    unfold getWindowCellSpan, removeWindowFromGrid; cbn [assignments].
    rewrite find_filter_keep by exact Hne. reflexivity.
  - intros other span Hne.
    unfold getWindowCellSpan, assignWindowToGrid; cbn [assignments].
    destruct (find (hasId other) (assignments gridState)) as [a|] eqn:F.
    + assert (F' : find (hasId other)
                     (filter (fun a => negb (String.eqb (windowId a) wid))
                        (assignments gridState)) = Some a)
        by (rewrite find_filter_keep by exact Hne; exact F).
      clear F. revert F'.
      generalize (filter (fun a => negb (String.eqb (windowId a) wid))
                    (assignments gridState)).
      intros l. induction l as [|a0 l IH]; cbn; [discriminate|].
      destruct (String.eqb (windowId a0) other); [intros [= ->]; reflexivity|].
      exact IH.
    + rewrite (find_none_app other)
        by (rewrite find_filter_keep by exact Hne; exact F).
      cbn. destruct (String.eqb_spec wid other) as [E|_]; [congruence|].
      reflexivity.
  - intros Habsent. apply getWindowCellSpan_none_iff in Habsent.
    split.
    + unfold removeWindowFromGrid; cbn [assignments].
      apply filter_absent. exact Habsent.
    + intros span now'.
      unfold removeWindowFromGrid, assignWindowToGrid; cbn [assignments].
      rewrite filter_app, filter_other_idem, filter_absent by exact Habsent.
      cbn. rewrite String.eqb_refl. cbn. apply app_nil_r.
Qed.

Lemma removeWindowFromGrid_lookup_witness :
  getWindowCellSpan "win-3" twoWindows = None
  /\ assignments
       (removeWindowFromGrid "win-3"
          (assignWindowToGrid "win-3" cellC3 twoWindows t3) t3)
     = assignments twoWindows.
Proof.
  destruct (removeWindowFromGrid_lookup "win-3" twoWindows t3)
    as (_ & _ & _ & Hundo).
  split; [reflexivity|].
  destruct (Hundo eq_refl) as [_ Hback]. apply Hback.
Defined.

(** ** Validation, free cells and placement *)

Lemma validateCellSpan_valid_intro (span : CellSpan) (gridState : GridState)
    (excludeWindowId : option string) :
  isWithinGrid span (config gridState) = true ->
  (forall a, In a (assignments gridState) ->
     isExcluded excludeWindowId a = true
     \/ cellSpansOverlap span (cellSpan a) = false) ->
  validateCellSpan span gridState excludeWindowId
  = {| valid := true; error := None |}.
Proof.
  intros Hin Hfree. unfold validateCellSpan. rewrite Hin. cbn [negb].
  rewrite firstReturn_all_none; [reflexivity|].
  intros a Ha. destruct (Hfree a Ha) as [E|E]; rewrite E; [reflexivity|].
  destruct (isExcluded excludeWindowId a); reflexivity.
Qed.

Lemma validateCellSpan_error_iff (span : CellSpan) (gridState : GridState)
    (excludeWindowId : option string) :
  error (validateCellSpan span gridState excludeWindowId) = None
  <-> valid (validateCellSpan span gridState excludeWindowId) = true.
Proof.
  unfold validateCellSpan.
  destruct (isWithinGrid span (config gridState)); cbn [negb];
    [|cbn; split; discriminate].
  induction (assignments gridState) as [|a l IH]; cbn [firstReturn].
  - cbn. split; reflexivity.
  - destruct (isExcluded excludeWindowId a); [exact IH|].
    destruct (cellSpansOverlap span (cellSpan a)); [|exact IH].
    cbn. split; discriminate.
Qed.

(** X18. [validateCellSpan] accepts a span exactly when the span is within
    the grid and overlaps no assignment other than those of the excluded
    window; it reports an error message exactly when it rejects. *)
Theorem validateCellSpan_valid_iff (span : CellSpan) (gridState : GridState)
    (excludeWindowId : option string) :
  (valid (validateCellSpan span gridState excludeWindowId) = true
   <-> isWithinGrid span (config gridState) = true
       /\ forall a, In a (assignments gridState) ->
            isExcluded excludeWindowId a = true
            \/ cellSpansOverlap span (cellSpan a) = false)
  /\ (error (validateCellSpan span gridState excludeWindowId) = None
      <-> valid (validateCellSpan span gridState excludeWindowId) = true).
Proof.
  split; [|apply validateCellSpan_error_iff].
  split; [apply validateCellSpan_valid_inv|].
  intros [Hin Hfree].
  rewrite (validateCellSpan_valid_intro _ _ _ Hin Hfree). reflexivity.
Qed.

Lemma In_getAvailableCells (gridState : GridState) (r c : Z) :
  In {| row := r; column := c |} (getAvailableCells gridState)
  <-> inGrid (config gridState) r c /\ uncovered gridState r c.
Proof.
  unfold getAvailableCells. rewrite in_flat_map. split.
  - intros (r0 & Hr0 & Hrow). apply in_flat_map in Hrow.
    destruct Hrow as (c0 & Hc0 & Hcell).
    match type of Hcell with
    | In _ (if ?b then _ else _) => destruct b eqn:Hocc
    end; [contradiction|].
    destruct Hcell as [E|[]]. injection E as -> ->.
    apply In_countFrom in Hr0, Hc0.
    split; [unfold inGrid; lia|].
    intros a Ha Hcov.
    apply not_true_iff_false in Hocc. apply Hocc.
    apply existsb_exists. exists (cellKey r c).
    split; [|apply String.eqb_refl].
    apply in_flat_map. exists a. split; [exact Ha|].
    apply in_map_iff. exists {| row := r; column := c |}.
    split; [reflexivity|]. apply In_getCellsInSpan. exact Hcov.
  - intros [[Hr Hc] Hfree]. exists r.
    split; [apply In_countFrom; lia|].
    apply in_flat_map. exists c. split; [apply In_countFrom; lia|].
    match goal with
    | |- In _ (if ?b then _ else _) => destruct b eqn:Hocc
    end; [exfalso|left; reflexivity].
    apply existsb_exists in Hocc. destruct Hocc as (key & Hkey & Heq).
    apply String.eqb_eq in Heq. subst key.
    apply in_flat_map in Hkey. destruct Hkey as (a & Ha & Hkey).
    apply in_map_iff in Hkey. destruct Hkey as ([r' c'] & E & Hcell).
    cbn [row column] in E. apply cellKey_inj in E. destruct E as [-> ->].
    apply (Hfree a Ha). apply In_getCellsInSpan. exact Hcell.
Qed.

Lemma NoDup_getAvailableCells (gridState : GridState) :
  NoDup (getAvailableCells gridState).
Proof.
  unfold getAvailableCells. apply NoDup_flat_map.
  - apply NoDup_countFrom.
  - intros r _. apply NoDup_flat_map.
    + apply NoDup_countFrom.
    + intros c _. destruct (existsb _ _); repeat constructor. intros [].
    + intros c c' cell _ _ H H'.
      destruct (existsb _ _) in H; [contradiction|].
      destruct (existsb _ _) in H'; [contradiction|].
      destruct H as [<-|[]]. destruct H' as [E|[]]. injection E as E.
      symmetry. exact E.
  - intros r r' cell _ _ H H'.
    apply in_flat_map in H, H'.
    destruct H as (c & _ & H). destruct H' as (c' & _ & H').
    destruct (existsb _ _) in H; [contradiction|].
    destruct (existsb _ _) in H'; [contradiction|].
    destruct H as [<-|[]]. destruct H' as [E|[]]. injection E as E _.
    symmetry. exact E.
Qed.

(** X19. [getAvailableCells] lists, once each, exactly the cells of the
    grid that lie in the span of no assignment. *)
Theorem getAvailableCells_free_cells (gridState : GridState) :
  NoDup (getAvailableCells gridState)
  /\ forall r c,
       In {| row := r; column := c |} (getAvailableCells gridState)
       <-> inGrid (config gridState) r c
           /\ forall a, In a (assignments gridState) ->
                ~ In {| row := r; column := c |} (getCellsInSpan (cellSpan a)).
Proof.
  split; [apply NoDup_getAvailableCells|].
  intros r c. rewrite In_getAvailableCells. unfold uncovered.
  split; intros [Hgrid Hfree]; (split; [exact Hgrid|]); intros a Ha H;
    apply (Hfree a Ha); apply In_getCellsInSpan; exact H.
Qed.

(** ** The placement invariant *)

Lemma In_assign (wid : string) (span : CellSpan) (gridState : GridState)
    (now : string) (a : CellAssignment) :
  In a (assignments (assignWindowToGrid wid span gridState now))
  <-> (In a (assignments gridState) /\ windowId a <> wid)
      \/ a = {| windowId := wid; cellSpan := span; zIndex := None |}.
Proof.
  unfold assignWindowToGrid; cbn [assignments].
  rewrite in_app_iff, filter_In, negb_true_iff, String.eqb_neq. cbn.
  split; intros [H|H]; auto.
  - destruct H as [<-|[]]. right. reflexivity.
Qed.

(** Assigning a span that validation accepts, with the window itself
    excluded or with nothing excluded, keeps the placement sound. *)
Lemma assign_valid_placementOk (wid : string) (span : CellSpan)
    (gridState : GridState) (now : string) (excludeWindowId : option string) :
  excludeWindowId = None \/ excludeWindowId = Some wid ->
  valid (validateCellSpan span gridState excludeWindowId) = true ->
  placementOk gridState ->
  placementOk (assignWindowToGrid wid span gridState now).
Proof.
  intros Hex Hvalid [Hwithin Hapart].
  apply validateCellSpan_valid_inv in Hvalid. destruct Hvalid as [Hin Hfree].
  assert (Hother : forall a, In a (assignments gridState) ->
                             windowId a <> wid ->
                             cellSpansOverlap span (cellSpan a) = false).
  { intros a Ha Hne. destruct (Hfree a Ha) as [E|E]; [|exact E].
    destruct Hex as [->| ->]; [discriminate|].
    rewrite isExcluded_other in E by congruence. discriminate. }
  split.
  - intros a Ha. apply In_assign in Ha. cbn [config assignWindowToGrid].
    destruct Ha as [[Ha _]| ->]; [apply Hwithin; exact Ha|exact Hin].
  - intros a b Ha Hb Hne. apply In_assign in Ha, Hb.
    destruct Ha as [[Ha Hida]| ->]; destruct Hb as [[Hb Hidb]| ->]; cbn in *.
    + apply Hapart; assumption.
    + rewrite cellSpansOverlap_sym. apply Hother; assumption.
    + apply Hother; [exact Hb|congruence].
    + congruence.
Qed.

(** X20. [assignToGrid], the entry point that parses, validates and then
    assigns, keeps the placement sound: from a state in which every
    assignment is within the grid and no two different windows overlap, any
    state it returns is again such a state, and in it the window holds a
    span within the grid.  When it fails it returns no state at all. *)
Theorem assignToGrid_keeps_placement (wid : string) (position : string + CellSpan)
    (gridState : GridState) (now : string) :
  placementOk gridState ->
  (forall after,
      assignedState (assignToGrid wid position gridState now) = Some after ->
      placementOk after
      /\ assignSuccess (assignToGrid wid position gridState now) = true
      /\ exists span,
           getWindowCellSpan wid after = Some span
           /\ isWithinGrid span (config after) = true)
  /\ (assignedState (assignToGrid wid position gridState now) = None ->
      assignSuccess (assignToGrid wid position gridState now) = false
      /\ exists msg, assignError (assignToGrid wid position gridState now) = Some msg).
Proof.
  intros Hok.
  assert (Hspan : forall span,
    let res :=
      if negb (valid (validateCellSpan span gridState (Some wid)))
      then {| assignSuccess := false; assignedState := None;
              assignError := error (validateCellSpan span gridState (Some wid)) |}
      else {| assignSuccess := true;
              assignedState := Some (assignWindowToGrid wid span gridState now);
              assignError := None |} in
    (forall after,
        assignedState res = Some after ->
        placementOk after /\ assignSuccess res = true
        /\ exists span',
             getWindowCellSpan wid after = Some span'
             /\ isWithinGrid span' (config after) = true)
    /\ (assignedState res = None ->
        assignSuccess res = false /\ exists msg, assignError res = Some msg)).
  { intros span.
    destruct (valid (validateCellSpan span gridState (Some wid))) eqn:Hvalid;
      cbn [negb assignedState assignSuccess assignError].
    - split; [|discriminate]. intros after [= <-].
      split; [apply (assign_valid_placementOk wid span gridState now (Some wid));
              [right; reflexivity|exact Hvalid|exact Hok]|].
      split; [reflexivity|]. exists span. split.
      + unfold getWindowCellSpan, assignWindowToGrid; cbn [assignments].
        rewrite (find_none_app wid) by apply find_filter_other.
        cbn. rewrite String.eqb_refl. reflexivity.
      + apply validateCellSpan_valid_inv in Hvalid. apply Hvalid.
    - split; [discriminate|]. intros _. split; [reflexivity|].
      destruct (error (validateCellSpan span gridState (Some wid))) as [msg|] eqn:E.
      + exists msg. reflexivity.
      + apply validateCellSpan_error_iff in E. congruence. }
  unfold assignToGrid.
  destruct position as [spec|span]; [|apply Hspan].
  destruct (parsedSpan (parseCellSpec spec)) as [span|].
  - destruct (success (parseCellSpec spec)); cbn [negb]; [apply Hspan|].
    cbn. split; [discriminate|]. intros _. split; [reflexivity|eauto].
  - cbn. split; [discriminate|]. intros _. split; [reflexivity|eauto].
Qed.

Lemma assignToGrid_keeps_placement_witness :
  placementOk twoWindows
  /\ exists after,
       assignedState (assignToGrid "win-2" (inl "b2:c3") twoWindows t3) = Some after
       /\ placementOk after.
Proof.
  assert (Hok : placementOk twoWindows).
  { split.
    - intros a [<-|[<-|[]]]; reflexivity.
    - intros a b [<-|[<-|[]]] [<-|[<-|[]]] Hne; try reflexivity;
        exfalso; apply Hne; reflexivity. }
  split; [exact Hok|].
  destruct (assignToGrid_keeps_placement "win-2" (inl "b2:c3") twoWindows t3 Hok)
    as [Hsome _].
  eexists. split; [reflexivity|].
  apply Hsome. reflexivity.
Defined.

Lemma findAvailableSpan_some_valid (rSpan cSpan : Z) (gridState : GridState)
    (found : CellSpan) :
  findAvailableSpan rSpan cSpan gridState = Some found ->
  valid (validateCellSpan found gridState None) = true
  /\ rowSpan found = rSpan /\ columnSpan found = cSpan.
Proof.
  unfold findAvailableSpan. intros H.
  apply firstReturn_some_in in H. destruct H as (r & _ & H).
  apply firstReturn_some_in in H. destruct H as (c & _ & H).
  match type of H with
  | (if ?b then _ else _) = _ => destruct b eqn:Hvalid; [|discriminate]
  end.
  injection H as <-. split; [exact Hvalid|split; reflexivity].
Qed.

(** X21. Automatic placement is sound: the span that [findAvailableSpan]
    returns has the requested dimensions, lies within the grid and covers
    free cells only, and assigning it to any window keeps every assignment
    within the grid and different windows apart. *)
Theorem findAvailableSpan_placement (rSpan cSpan : Z) (gridState : GridState)
    (found : CellSpan) :
  findAvailableSpan rSpan cSpan gridState = Some found ->
  rowSpan found = rSpan /\ columnSpan found = cSpan
  /\ isWithinGrid found (config gridState) = true
  /\ (forall cell, In cell (getCellsInSpan found) ->
                   In cell (getAvailableCells gridState))
  /\ (placementOk gridState ->
      forall wid now,
        placementOk (assignWindowToGrid wid found gridState now)).
Proof.
  intros H. apply findAvailableSpan_some_valid in H.
  destruct H as (Hvalid & Hr & Hc).
  pose proof (validateCellSpan_valid_inv _ _ _ Hvalid) as [Hin Hfree].
  split; [exact Hr|]. split; [exact Hc|]. split; [exact Hin|]. split.
  - intros [r c] Hcell. apply In_getAvailableCells.
    apply In_getCellsInSpan in Hcell.
    apply isWithinGrid_true_iff in Hin.
    split; [unfold covers, inGrid in *; lia|].
    intros a Ha Hcov. destruct (Hfree a Ha) as [E|E]; [discriminate|].
    apply not_true_iff_false in E. apply E.
    apply cellSpansOverlap_true_iff. unfold covers in *. lia.
  - intros Hok wid now.
    apply (assign_valid_placementOk wid found gridState now None);
      [left; reflexivity|exact Hvalid|exact Hok].
Qed.

Lemma findAvailableSpan_placement_witness :
  findAvailableSpan 2 2 twoWindows = Some (spanAt 1 0 2 2)
  /\ In {| row := 2; column := 1 |} (getAvailableCells twoWindows).
Proof.
  split; [reflexivity|].
  destruct (findAvailableSpan_placement 2 2 twoWindows (spanAt 1 0 2 2) eq_refl)
    as (_ & _ & _ & Hfree & _).
  apply Hfree. vm_compute. auto.
Defined.

(** ** Swapping *)

Lemma swap_inv (id1 id2 : string) (gridState : GridState) (now : string)
    (after : GridState) :
  swapWindowPositions id1 id2 gridState now = Return after ->
  exists e1 e2,
    find (hasId id1) (assignments gridState) = Some e1
    /\ find (hasId id2) (assignments gridState) = Some e2
    /\ config after = config gridState
    /\ assignments after
       = map (fun a =>
                if String.eqb (windowId a) id1 then
                  {| windowId := windowId a; cellSpan := cellSpan e2;
                     zIndex := zIndex a |}
                else if String.eqb (windowId a) id2 then
                  {| windowId := windowId a; cellSpan := cellSpan e1;
                     zIndex := zIndex a |}
                else a)
           (assignments gridState).
Proof.
  unfold swapWindowPositions, getWindowCellSpan.
  destruct (find (hasId id1) (assignments gridState)) as [e1|]; [|discriminate].
  destruct (find (hasId id2) (assignments gridState)) as [e2|]; [|discriminate].
  intros [= <-]. exists e1, e2. repeat split; reflexivity.
Qed.

Lemma swappedId_injective (id1 id2 w w' : string) :
  swappedId id1 id2 w = swappedId id1 id2 w' -> w = w'.
Proof.
  unfold swappedId.
  destruct (String.eqb_spec w id1); destruct (String.eqb_spec w id2);
    destruct (String.eqb_spec w' id1); destruct (String.eqb_spec w' id2);
    congruence.
Qed.

(** After a swap every entry holds the span that some entry of the
    swapped id held before. *)
Lemma swap_entry_source (id1 id2 : string) (l : list CellAssignment)
    (e1 e2 a : CellAssignment) :
  find (hasId id1) l = Some e1 -> find (hasId id2) l = Some e2 -> In a l ->
  exists a0,
    In a0 l /\ windowId a0 = swappedId id1 id2 (windowId a)
    /\ cellSpan a0
       = cellSpan
           (if String.eqb (windowId a) id1 then
              {| windowId := windowId a; cellSpan := cellSpan e2; zIndex := zIndex a |}
            else if String.eqb (windowId a) id2 then
              {| windowId := windowId a; cellSpan := cellSpan e1; zIndex := zIndex a |}
            else a).
Proof.
  intros F1 F2 Ha.
  pose proof (find_some _ _ F1) as [He1 _].
  pose proof (find_some _ _ F2) as [He2 _].
  pose proof (find_hasId_id _ _ _ F1) as Hid1.
  pose proof (find_hasId_id _ _ _ F2) as Hid2.
  unfold swappedId.
  destruct (String.eqb (windowId a) id1).
  - exists e2. repeat split; assumption.
  - destruct (String.eqb (windowId a) id2).
    + exists e1. repeat split; assumption.
    + exists a. repeat split; assumption.
Qed.

(** X22. Swapping two windows keeps the placement sound: from a state in
    which every assignment is within the grid and no two different windows
    overlap, the state [swapWindowPositions] returns is again such a
    state. *)
Theorem swapWindowPositions_keeps_placement (id1 id2 : string)
    (gridState : GridState) (now : string) (after : GridState) :
  placementOk gridState ->
  swapWindowPositions id1 id2 gridState now = Return after ->
  placementOk after.
Proof.
  intros [Hwithin Hapart] Hswap.
  destruct (swap_inv _ _ _ _ _ Hswap) as (e1 & e2 & F1 & F2 & Hcfg & Hl).
  assert (Hsrc : forall b, In b (assignments after) ->
            exists a a0,
              In a (assignments gridState) /\ In a0 (assignments gridState)
              /\ windowId b = windowId a
              /\ windowId a0 = swappedId id1 id2 (windowId a)
              /\ cellSpan b = cellSpan a0).
  { intros b Hb. rewrite Hl in Hb. apply in_map_iff in Hb.
    destruct Hb as (a & <- & Ha).
    destruct (swap_entry_source id1 id2 _ e1 e2 a F1 F2 Ha)
      as (a0 & Ha0 & Hid & Hspan).
    exists a, a0. repeat split; try assumption; [|symmetry; exact Hspan].
    destruct (String.eqb (windowId a) id1); [reflexivity|].
    destruct (String.eqb (windowId a) id2); reflexivity. }
  split.
  - intros b Hb. destruct (Hsrc b Hb) as (a & a0 & _ & Ha0 & _ & _ & ->).
    rewrite Hcfg. apply Hwithin. exact Ha0.
  - intros b b' Hb Hb' Hne.
    destruct (Hsrc b Hb) as (a & a0 & _ & Ha0 & Hidb & Hid0 & ->).
    destruct (Hsrc b' Hb') as (a' & a0' & _ & Ha0' & Hidb' & Hid0' & ->).
    apply Hapart; [exact Ha0|exact Ha0'|].
    intros E. apply Hne. rewrite Hidb, Hidb'.
    apply (swappedId_injective id1 id2). congruence.
Qed.

Lemma swapWindowPositions_keeps_placement_witness :
  exists after,
    swapWindowPositions "win-1" "win-2" twoWindows t3 = Return after
    /\ placementOk after.
Proof.
  eexists. split; [reflexivity|].
  apply (swapWindowPositions_keeps_placement "win-1" "win-2" twoWindows t3).
  - split.
    + intros a [<-|[<-|[]]]; reflexivity.
    + intros a b [<-|[<-|[]]] [<-|[<-|[]]] Hne; try reflexivity;
        exfalso; apply Hne; reflexivity.
  - reflexivity.
Defined.

Lemma unique_entry (w : string) (l : list CellAssignment) (a0 a : CellAssignment) :
  NoDup (map windowId l) -> find (hasId w) l = Some a0 ->
  In a l -> windowId a = w -> a = a0.
Proof.
  induction l as [|x l IH]; cbn; intros Hnd F Ha Hid; [contradiction|].
  apply NoDup_cons_iff in Hnd. destruct Hnd as [Hnotin Hnd].
  destruct (String.eqb_spec (windowId x) w) as [E|E].
  - injection F as <-. destruct Ha as [->|Ha]; [reflexivity|].
    exfalso. apply Hnotin. apply in_map_iff. exists a.
    split; [congruence|exact Ha].
  - destruct Ha as [->|Ha]; [congruence|]. apply IH; assumption.
Qed.

(** X23. Swapping twice undoes the swap: when no window id is assigned
    twice, swapping the same two windows again in the state that
    [swapWindowPositions] returned succeeds and gives back the assignments
    of the original state. *)
Theorem swapWindowPositions_involutive (id1 id2 : string)
    (gridState : GridState) (now now' : string) (after : GridState) :
  uniqueIds gridState ->
  swapWindowPositions id1 id2 gridState now = Return after ->
  exists back,
    swapWindowPositions id1 id2 after now' = Return back
    /\ assignments back = assignments gridState.
Proof.
  intros Huniq Hswap.
  destruct (swap_inv _ _ _ _ _ Hswap) as (e1 & e2 & F1 & F2 & _ & Hl).
  pose proof (find_hasId_id _ _ _ F1) as Hid1.
  pose proof (find_hasId_id _ _ _ F2) as Hid2.
  set (f := fun a : CellAssignment =>
              if String.eqb (windowId a) id1 then
                {| windowId := windowId a; cellSpan := cellSpan e2; zIndex := zIndex a |}
              else if String.eqb (windowId a) id2 then
                {| windowId := windowId a; cellSpan := cellSpan e1; zIndex := zIndex a |}
              else a) in *.
  assert (Hid : forall a, windowId (f a) = windowId a).
  { intros a. unfold f.
    destruct (String.eqb (windowId a) id1); [reflexivity|].
    destruct (String.eqb (windowId a) id2); reflexivity. }
  assert (F1' : find (hasId id1) (assignments after) = Some (f e1)).
  { rewrite Hl, (find_map_same_id id1 f) by exact Hid. rewrite F1. reflexivity. }
  assert (F2' : find (hasId id2) (assignments after) = Some (f e2)).
  { rewrite Hl, (find_map_same_id id2 f) by exact Hid. rewrite F2. reflexivity. }
  assert (Hs1 : cellSpan (f e1) = cellSpan e2).
  { unfold f. rewrite Hid1, String.eqb_refl. reflexivity. }
  assert (Hs2 : cellSpan (f e2) = cellSpan e1).
  { unfold f. rewrite Hid2.
    destruct (String.eqb_spec id2 id1) as [E|_]; [|rewrite String.eqb_refl; reflexivity].
    cbn. rewrite E in F2. congruence. }
  unfold swapWindowPositions, getWindowCellSpan. rewrite F1', F2'.
  eexists. split; [reflexivity|]. cbn [assignments].
  rewrite Hs1, Hs2, Hl, map_map.
  rewrite <- (map_id (assignments gridState)) at 2.
  apply map_ext_in. intros a Ha. rewrite Hid. unfold f.
  destruct (String.eqb_spec (windowId a) id1) as [E1|E1].
  - rewrite (unique_entry id1 _ e1 a Huniq F1 Ha E1).
    destruct e1; reflexivity.
  - destruct (String.eqb_spec (windowId a) id2) as [E2|E2]; [|reflexivity].
    rewrite (unique_entry id2 _ e2 a Huniq F2 Ha E2).
    destruct e2; reflexivity.
Qed.

Lemma swapWindowPositions_involutive_witness :
  exists after back,
    swapWindowPositions "win-1" "win-2" swapFixture t3 = Return after
    /\ swapWindowPositions "win-1" "win-2" after t3 = Return back
    /\ assignments back = assignments swapFixture.
Proof.
  destruct (swapWindowPositions_involutive "win-1" "win-2" swapFixture t3 t3
              {| desktopIndex := 0; config := config swapFixture;
                 assignments :=
                   [ {| windowId := "win-1"; cellSpan := cellC3; zIndex := None |};
                     {| windowId := "win-2"; cellSpan := cellA1; zIndex := None |} ];
                 lastUpdated := t3 |})
    as (back & Hback & Hsame).
  - unfold uniqueIds. cbn. repeat constructor; cbn; intuition discriminate.
  - reflexivity.
  - eexists. exists back. split; [reflexivity|]. split; assumption.
Defined.

(** ** Fresh states and free cells *)

Lemma getAvailableCells_empty_length (gridState : GridState) :
  withoutAssignments gridState ->
  List.length (getAvailableCells gridState)
  = (Z.to_nat (rows (config gridState)) * Z.to_nat (columns (config gridState)))%nat.
Proof.
  unfold withoutAssignments, getAvailableCells. intros ->. cbn [flat_map existsb].
  rewrite flat_map_constant_length with (c := Z.to_nat (columns (config gridState))).
  - rewrite length_countFrom. reflexivity.
  - intros r _. rewrite flat_map_constant_length with (c := 1%nat).
    + rewrite length_countFrom. lia.
    + intros c _. reflexivity.
Qed.

Lemma findAvailableSpan_empty (rSpan cSpan : Z) (gridState : GridState) :
  withoutAssignments gridState ->
  findAvailableSpan rSpan cSpan gridState
  = if (rSpan <=? rows (config gridState)) && (cSpan <=? columns (config gridState))
    then Some (spanAt 0 0 rSpan cSpan) else None.
Proof.
  unfold withoutAssignments. intros Hempty.
  unfold findAvailableSpan, upTo.
  destruct (Z.leb_spec rSpan (rows (config gridState))) as [Hr|Hr]; cbn [andb].
  - destruct (Z.leb_spec cSpan (columns (config gridState))) as [Hc|Hc].
    + rewrite (countFrom_cons 0 (rows (config gridState) - rSpan + 1)) by lia.
      cbn [firstReturn].
      rewrite (countFrom_cons 0 (columns (config gridState) - cSpan + 1)) by lia.
      cbn [firstReturn].
      unfold validateCellSpan. rewrite Hempty. cbn [firstReturn].
      assert (Hin : isWithinGrid
                      {| startRow := 0; startColumn := 0;
                         rowSpan := rSpan; columnSpan := cSpan |}
                      (config gridState) = true)
        by (apply isWithinGrid_true_iff; cbn; lia).
      rewrite Hin. reflexivity.
    + rewrite (countFrom_nil 0 (columns (config gridState) - cSpan + 1)) by lia.
      apply firstReturn_all_none. reflexivity.
  - rewrite (countFrom_nil 0 (rows (config gridState) - rSpan + 1)) by lia.
    reflexivity.
Qed.

(** X24. A state fresh from [initializeGridState] is an empty, sound
    placement: all rows * columns cells of its grid are available, and a
    request for a span is answered with the span at the origin when it is
    no taller and no wider than the grid, and with "no fit" otherwise. *)
Theorem initializeGridState_fresh (desktop : Z) (partial : PartialGridConfig)
    (now : string) (rSpan cSpan : Z) :
  let fresh := initializeGridState desktop partial now in
  placementOk fresh
  /\ List.length (getAvailableCells fresh)
     = (Z.to_nat (rows (config fresh)) * Z.to_nat (columns (config fresh)))%nat
  /\ (forall r c, inGrid (config fresh) r c ->
        In {| row := r; column := c |} (getAvailableCells fresh))
  /\ findAvailableSpan rSpan cSpan fresh
     = if (rSpan <=? rows (config fresh)) && (cSpan <=? columns (config fresh))
       then Some (spanAt 0 0 rSpan cSpan) else None.
Proof.
  intros fresh.
  assert (Hempty : withoutAssignments fresh) by reflexivity.
  split; [|split; [|split]].
  - split; [intros a []|intros a b []].
  - apply getAvailableCells_empty_length. exact Hempty.
  - intros r c Hgrid. apply In_getAvailableCells.
    split; [exact Hgrid|]. intros a [].
  - apply findAvailableSpan_empty. exact Hempty.
Qed.

(** X25. Assigning a window takes the cells of its new span, and nothing
    else, out of the free cells: a cell is available after
    [assignWindowToGrid] exactly when it is available once the window is
    removed and it is not a cell of the new span. *)
Theorem getAvailableCells_after_assign (wid : string) (span : CellSpan)
    (gridState : GridState) (now now' : string) (r c : Z) :
  In {| row := r; column := c |}
     (getAvailableCells (assignWindowToGrid wid span gridState now))
  <-> In {| row := r; column := c |}
         (getAvailableCells (removeWindowFromGrid wid gridState now'))
      /\ ~ In {| row := r; column := c |} (getCellsInSpan span).
Proof.
  rewrite !In_getAvailableCells, In_getCellsInSpan. unfold uncovered.
  cbn [config assignWindowToGrid removeWindowFromGrid assignments].
  split.
  - intros [Hgrid Hfree]. split; [split; [exact Hgrid|]|].
    + intros a Ha. apply Hfree. apply in_or_app. left. exact Ha.
    + apply (Hfree {| windowId := wid; cellSpan := span; zIndex := None |}).
      apply in_or_app. right. left. reflexivity.
  - intros [[Hgrid Hfree] Hspan]. split; [exact Hgrid|].
    intros a Ha. apply in_app_or in Ha.
    destruct Ha as [Ha|[<-|[]]]; [apply Hfree; exact Ha|exact Hspan].
Qed.

(** ** Monitors and window rectangles *)





(** X27. [getGridLayoutInfo] throws exactly when no monitor has the index
    of the grid.  Otherwise it reports the free cells of
    [getAvailableCells] and one entry per assignment, in order and under
    the same window id, whose position is the rectangle of the span and
    whose cell specification, for a span that starts at a row and a column
    from 0 on, has at least one row and one column and ends at a row and a
    column that are safe integers (at most 2^53 - 1), parses back to that
    span. *)
Theorem getGridLayoutInfo_entries (gridState : GridState)
    (windowKinds : string -> option string) (monitors : list MonitorInfo) :
  (getMonitor (monitorIndex (config gridState)) monitors = None ->
   getGridLayoutInfo gridState windowKinds monitors
   = Throw ("Monitor " ++ toString (monitorIndex (config gridState))
            ++ " not found"))
  /\ (forall m,
      getMonitor (monitorIndex (config gridState)) monitors = Some m ->
      exists info,
        getGridLayoutInfo gridState windowKinds monitors = Return info
        /\ layoutMonitor info = m
        /\ availableCells info = getAvailableCells gridState
        /\ map layoutWindowId (layoutAssignments info)
           = map windowId (assignments gridState)
        /\ map position (layoutAssignments info)
           = map (fun a => calculateCellRect (cellSpan a) (config gridState) m)
               (assignments gridState)
        /\ ((forall a, In a (assignments gridState) -> safeSpan (cellSpan a)) ->
            map (fun e => parseCellSpec (cellSpec e)) (layoutAssignments info)
            = map (fun a => parseOk (cellSpan a)) (assignments gridState))).
Proof.
  split.
  - intros Hnone. unfold getGridLayoutInfo. rewrite Hnone. reflexivity.
  - intros m Hm. unfold getGridLayoutInfo. rewrite Hm.
    eexists. split; [reflexivity|]. cbn [layoutMonitor availableCells layoutAssignments].
    split; [reflexivity|]. split; [reflexivity|].
    split; [rewrite map_map; reflexivity|].
    split; [rewrite map_map; reflexivity|].
    intros Hwell. rewrite map_map. apply map_ext_in.
    intros a Ha. cbn [cellSpec].
    apply format_then_parse, Hwell, Ha.
Qed.

Lemma getGridLayoutInfo_entries_witness :
  exists info,
    getGridLayoutInfo twoWindows (fun _ => None) [mockMonitor] = Return info
    /\ map cellSpec (layoutAssignments info) = ["A1"; "B1"]
    /\ map (fun e => parseCellSpec (cellSpec e)) (layoutAssignments info)
       = [parseOk cellA1; parseOk cellB1].
Proof.
  destruct (getGridLayoutInfo_entries twoWindows (fun _ => None) [mockMonitor])
    as [_ Hsome].
  destruct (Hsome mockMonitor eq_refl)
    as (info & Hinfo & _ & _ & _ & _ & Hparse).
  exists info. split; [exact Hinfo|].
  split; [injection Hinfo as <-; reflexivity|].
  apply Hparse.
  intros a [<-|[<-|[]]];
    unfold safeSpan, positiveSpan, endRowOf, endColumnOf, MAX_SAFE_INTEGER;
    cbn; lia.
Defined.

(** X28. The monitor cache: whatever a call of [getCachedMonitors]
    returns is what the cache holds afterwards.  After a refresh at time
    t, an unforced call before t + 5000 returns the cached list without
    using what the system would report and leaves the cache as it is; a
    forced call, a call from t + 5000 on, and any call after
    [clearMonitorCache] return the freshly reported list and stamp the
    cache with the time of that call. *)
Theorem getCachedMonitors_ttl (cache : MonitorCache) (forceRefresh : bool)
    (now now' : Z) (fetched fetched' : list MonitorInfo) :
  monitorCache (snd (getCachedMonitors forceRefresh now fetched cache))
  = Some (fst (getCachedMonitors forceRefresh now fetched cache))
  /\ (let refreshed := {| monitorCache := Some fetched; cacheTimestamp := now |} in
      getCachedMonitors true now fetched cache = (fetched, refreshed)
      /\ (now' - now < 5000 ->
          getCachedMonitors false now' fetched' refreshed = (fetched, refreshed))
      /\ (5000 <= now' - now ->
          getCachedMonitors false now' fetched' refreshed
          = (fetched', {| monitorCache := Some fetched'; cacheTimestamp := now' |}))
      /\ getCachedMonitors true now' fetched' refreshed
         = (fetched', {| monitorCache := Some fetched'; cacheTimestamp := now' |})
      /\ getCachedMonitors forceRefresh now' fetched' (clearMonitorCache refreshed)
         = (fetched', {| monitorCache := Some fetched'; cacheTimestamp := now' |})
      /\ getCachedMonitors forceRefresh now fetched initialMonitorCache
         = (fetched, refreshed)).
Proof.
  split.
  - unfold getCachedMonitors.
    destruct (monitorCache cache) as [cached|] eqn:E; [|reflexivity].
    destruct (negb forceRefresh && (now - cacheTimestamp cache <? CACHE_TTL_MS));
      [exact E|reflexivity].
  - cbv zeta. unfold getCachedMonitors, CACHE_TTL_MS.
    cbn [monitorCache cacheTimestamp negb andb clearMonitorCache initialMonitorCache].
    split; [destruct (monitorCache cache); reflexivity|].
    split; [intros H; destruct (Z.ltb_spec (now' - now) 5000); [reflexivity|lia]|].
    split; [intros H; destruct (Z.ltb_spec (now' - now) 5000); [lia|reflexivity]|].
    repeat split; reflexivity.
Qed.

Lemma getCachedMonitors_ttl_witness :
  getCachedMonitors false 4999 [secondMonitor]
    {| monitorCache := Some [mockMonitor]; cacheTimestamp := 0 |}
  = ([mockMonitor], {| monitorCache := Some [mockMonitor]; cacheTimestamp := 0 |})
  /\ getCachedMonitors false 5000 [secondMonitor]
       {| monitorCache := Some [mockMonitor]; cacheTimestamp := 0 |}
     = ([secondMonitor],
        {| monitorCache := Some [secondMonitor]; cacheTimestamp := 5000 |}).
Proof.
  destruct (getCachedMonitors_ttl initialMonitorCache false 0 4999
              [mockMonitor] [secondMonitor]) as (_ & _ & Hhit & _).
  destruct (getCachedMonitors_ttl initialMonitorCache false 0 5000
              [mockMonitor] [secondMonitor]) as (_ & _ & _ & Hmiss & _).
  split; [apply Hhit; lia|apply Hmiss; lia].
Defined.

(** X29. [getPrimaryMonitor] throws exactly when no monitor was detected.
    Otherwise it returns a monitor of the list: the first one that is
    marked primary if there is one, and the first of the list if none is.
    [getMonitor] returns the first monitor of the list that has the index
    asked for, and nothing exactly when no monitor has it. *)
Theorem getPrimaryMonitor_fallback (monitors : list MonitorInfo) (idx : Z) :
  (getPrimaryMonitor monitors = Throw "No monitors detected" <-> monitors = [])
  /\ (forall m, getPrimaryMonitor monitors = Return m ->
        In m monitors
        /\ (isPrimary m = false ->
            hd_error monitors = Some m
            /\ forall m', In m' monitors -> isPrimary m' = false))
  /\ (forall m, getMonitor idx monitors = Some m -> In m monitors /\ index m = idx)
  /\ (getMonitor idx monitors = None
      <-> forall m, In m monitors -> index m <> idx).
Proof.
  split; [|split; [|split]].
  - unfold getPrimaryMonitor.
    destruct (find (fun m => isPrimary m) monitors) as [p|] eqn:F.
    + split; [discriminate|]. intros ->. discriminate.
    + destruct monitors; split; congruence.
  - intros m. unfold getPrimaryMonitor.
    destruct (find (fun m => isPrimary m) monitors) as [p|] eqn:F.
    + intros [= <-]. apply find_some in F. destruct F as [Hin Hp].
      split; [exact Hin|]. intros Hnot. congruence.
    + destruct monitors as [|first rest]; [discriminate|].
      intros [= <-]. split; [left; reflexivity|]. intros _.
      split; [reflexivity|].
      intros m' Hm'. pose proof (find_none _ _ F m' Hm') as H. exact H.
  - intros m H. unfold getMonitor in H. apply find_some in H.
    destruct H as [Hin Hidx]. split; [exact Hin|]. apply Z.eqb_eq. exact Hidx.
  - unfold getMonitor. split.
    + intros H m Hm E. pose proof (find_none _ _ H m Hm) as Hf.
      cbv beta in Hf. apply Z.eqb_neq in Hf. contradiction.
    + intros H.
      destruct (find (fun m => index m =? idx) monitors) as [m|] eqn:F;
        [|reflexivity].
      apply find_some in F. destruct F as [Hin Hidx].
      apply Z.eqb_eq in Hidx. exfalso. exact (H m Hin Hidx).
Qed.
